(** * ChunkIdEncoder: a shallow embedding of [hub/core/meta/encode/chunk_id.py]

    The encoder keeps a two-column table [[chunk_id, last_index]] and answers
    "which chunk holds sample [i]" by a binary search over the right column.
    The file first embeds the data model and the operations, then states and
    proves the properties of the specification. *)

From Stdlib Require Import String Ascii HexString ZArith Bool List Lia.
From Stdlib Require Import Strings.Byte.
Import ListNotations.
Local Open Scope Z_scope.

(** ** Constants of [hub.constants] *)

(** Modelled from the spec: [hub.constants.ENCODING_DTYPE] is not part of the
    sources at hand.  The specification fixes it as a 64-bit unsigned integer
    type; a value of that type is a [Z] in [[0, 2^64)]. *)
Definition ENCODING_BITS : Z := 64.

Definition ENCODING_MODULUS : Z := 2 ^ ENCODING_BITS.

(** The value an [ENCODING_DTYPE] holds for the integer [x]: [x] modulo
    [2^64].  It is what [np.array(..., dtype=ENCODING_DTYPE)] stores, so that
    [-1] becomes the all-ones pattern the encoder uses as a sentinel, and what
    the call [ENCODING_DTYPE(x)] returns when it returns (see
    [ENCODING_DTYPE_of_int] for when it does not). *)
Definition ENCODING_DTYPE (x : Z) : Z := x mod ENCODING_MODULUS.

(** Modelled from the spec: [hub.constants.UUID_SHIFT_AMOUNT], the number of
    bits that take a 128-bit uuid down to the width of [ENCODING_DTYPE]. *)
Definition UUID_SHIFT_AMOUNT : Z := 128 - ENCODING_BITS.

Definition CHUNK_ID_INDEX : Z := 0.

(** ** Exceptions and results *)

Inductive exn : Type :=
| ValueError
| ChunkIdEncoderError
| IndexError
| TypeError
| OverflowError
| FloatingPointError
| SerializeError.

Definition result (A : Type) : Type := (exn + A)%type.

Definition ok {A : Type} (a : A) : result A := inr a.
Definition raise {A : Type} (e : exn) : result A := inl e.

Definition rbind {A B : Type} (r : result A) (k : A -> result B) : result B :=
  match r with
  | inl e => inl e
  | inr a => k a
  end.

Definition is_ok {A : Type} (r : result A) : bool :=
  match r with
  | inl _ => false
  | inr _ => true
  end.

(** ** The encoded table *)

(** One row of [_encoded]: [[chunk_id, last_index]]. *)
Record row : Type := mk_row { chunk_id : Z; last_index : Z }.

Record ChunkIdEncoder : Type := mk_encoder { _encoded : list row }.

(** [ChunkIdEncoder()]: the constructor leaves [_encoded] empty. *)
Definition new_encoder : ChunkIdEncoder := mk_encoder [].

(** Every entry of an array of dtype [ENCODING_DTYPE] is in range. *)
Definition in_dtype (x : Z) : bool := (0 <=? x) && (x <? ENCODING_MODULUS).

Definition row_in_dtype (r : row) : bool :=
  in_dtype (chunk_id r) && in_dtype (last_index r).

Definition well_formed (enc : ChunkIdEncoder) : bool :=
  forallb row_in_dtype (_encoded enc).

(** The right-most column, the one that is searched. *)
Definition last_index_column (enc : ChunkIdEncoder) : list Z :=
  map last_index (_encoded enc).

(** ** numpy behaviour the encoder relies on *)

(** Indexing a one-dimensional sequence with a Python integer: a negative
    index counts from the end, anything outside raises [IndexError]. *)
Definition np_index {A : Type} (l : list A) (i : Z) : result A :=
  let n := Z.of_nat (length l) in
  let j := if i <? 0 then i + n else i in
  if (0 <=? j) && (j <? n)
  then match nth_error l (Z.to_nat j) with
       | Some a => ok a
       | None => raise IndexError
       end
  else raise IndexError.

(** [np.searchsorted(a, v)] with the default [side="left"]: a bisection that
    halves [[lo, hi)] until it is empty. *)
Fixpoint bisect_left (fuel : nat) (a : list Z) (v : Z) (lo hi : nat) : nat :=
  match fuel with
  | O => lo
  | S fuel' =>
      if (lo <? hi)%nat
      then let mid := ((lo + hi) / 2)%nat in
           if nth mid a 0 <? v
           then bisect_left fuel' a v (S mid) hi
           else bisect_left fuel' a v lo mid
      else lo
  end.

Definition searchsorted (a : list Z) (v : Z) : nat :=
  bisect_left (length a) a v 0 (length a).

(** The setting of [np.seterr(over=...)]. *)
Inductive err_mode : Type := Ignore | Warn | Raise.

(** What the interpreter holds besides the encoder: numpy's overflow setting
    and the warnings issued so far. *)
Record np_state : Type := mk_np { np_over : err_mode; np_warnings : list string }.

(** Addition of two [ENCODING_DTYPE] scalars.  The result wraps; an overflow
    is reported as [np.seterr] asks. *)
Definition scalar_add (a b : Z) (st : np_state) : result Z * np_state :=
  let s := a + b in
  if s <? ENCODING_MODULUS
  then (ok s, st)
  else match np_over st with
       | Ignore => (ok (s mod ENCODING_MODULUS), st)
       | Warn =>
           (ok (s mod ENCODING_MODULUS),
            mk_np (np_over st)
                  ("overflow encountered in scalar add"%string :: np_warnings st))
       | Raise => (raise FloatingPointError, st)
       end.

Definition seterr (over : err_mode) (st : np_state) : np_state :=
  mk_np over (np_warnings st).

(** The call [ENCODING_DTYPE(x)] on a Python integer: a value of [2^64] or
    more does not fit the type and raises [OverflowError]; a negative one
    wraps. *)
Definition ENCODING_DTYPE_of_int (x : Z) : result Z :=
  if ENCODING_MODULUS <=? x then raise OverflowError else ok (ENCODING_DTYPE x).

(** ** A state-and-exception monad

    A method either returns or raises, and in both cases leaves a state
    behind: an exception does not undo what was written before it. *)

Definition M (S A : Type) : Type := S -> result A * S.

Definition ret {S A : Type} (a : A) : M S A := fun s => (ok a, s).

Definition throw {S A : Type} (e : exn) : M S A := fun s => (raise e, s).

Definition bind {S A B : Type} (m : M S A) (k : A -> M S B) : M S B :=
  fun s =>
    match m s with
    | (inl e, s') => (inl e, s')
    | (inr a, s') => k a s'
    end.

Definition get {S : Type} : M S S := fun s => (ok s, s).

Definition modify {S : Type} (f : S -> S) : M S unit := fun s => (ok tt, f s).

(** A computation that touches no state. *)
Definition lift_result {S A : Type} (r : result A) : M S A := fun s => (r, s).

Declare Scope monad_scope.
Delimit Scope monad_scope with monad.
Notation "x <- m ;; k" := (bind m (fun x => k))
  (at level 100, m at next level, right associativity) : monad_scope.
Notation "m ;;; k" := (bind m (fun _ => k))
  (at level 100, right associativity) : monad_scope.
Local Open Scope monad_scope.

(** The state a method of the encoder runs in: the instance and numpy. *)
Record world : Type := mk_world { self : ChunkIdEncoder; numpy : np_state }.

Definition get_self : M world ChunkIdEncoder := fun w => (ok (self w), w).

(** The assignment [self._encoded = rows]. *)
Definition set_encoded (rows : list row) : M world unit :=
  modify (fun w => mk_world (mk_encoder rows) (numpy w)).

(** Running a numpy computation inside a method. *)
Definition lift_np {A : Type} (m : M np_state A) : M world A :=
  fun w => let '(r, st) := m (numpy w) in (r, mk_world (self w) st).

(** ** Accessors of the base [Encoder] *)

Fixpoint last_row (rows : list row) : option row :=
  match rows with
  | [] => None
  | r :: rows' =>
      match rows' with
      | [] => Some r
      | _ :: _ => last_row rows'
      end
  end.

(** The assignment [self._encoded[-1, LAST_SEEN_INDEX_COLUMN] = v]. *)
Fixpoint set_last_index (rows : list row) (v : Z) : list row :=
  match rows with
  | [] => []
  | r :: rows' =>
      match rows' with
      | [] => [mk_row (chunk_id r) v]
      | _ :: _ => r :: set_last_index rows' v
      end
  end.

(** The bound a new row starts with: the bound of the row before it, or the
    sentinel in an empty table. *)
Definition initial_bound (rows : list row) : Z :=
  match last_row rows with
  | Some r => last_index r
  | None => ENCODING_MODULUS - 1
  end.

(** Modelled from the spec: the property [num_samples] of the base class
    [hub.core.meta.encode.base_encoder.Encoder], which is not part of the
    sources at hand.  "Total logical units covered = [last_index] of final
    row + 1 (or 0 if table empty)".  The bound is read as it is stored, an
    unsigned [ENCODING_DTYPE], and the sum is a Python integer: a row that
    still carries the sentinel counts as [2^64], not as [0], which is what
    lets [register_samples] follow [generate_chunk_id] in the docstring of
    [ChunkIdEncoder]. *)
Definition num_samples (enc : ChunkIdEncoder) : Z :=
  match last_row (_encoded enc) with
  | None => 0
  | Some r => last_index r + 1
  end.

(** [ChunkIdEncoder.num_chunks]. *)
Definition num_chunks (enc : ChunkIdEncoder) : Z :=
  if num_samples enc =? 0 then 0 else Z.of_nat (length (_encoded enc)).

(** ** The hooks [ChunkIdEncoder] overrides *)

(** [ChunkIdEncoder._validate_incoming_item]. *)
Definition _validate_incoming_item (item : option Z) (n : Z) : M world unit :=
  enc <- get_self ;;
  if n <? 0 then throw ValueError
  else if num_samples enc =? 0 then throw ChunkIdEncoderError
  else if (n =? 0) && (num_chunks enc <? 2) then throw ChunkIdEncoderError
  else ret tt.

(** [ChunkIdEncoder._combine_condition]. *)
Definition _combine_condition (item : option Z) : bool := true.

(** [ChunkIdEncoder._derive_next_last_index]: the cast of [num_samples] and
    the addition run between [np.seterr(over="ignore")] and
    [np.seterr(over="warn")].  When the cast raises, the second [seterr] is
    not reached. *)
Definition _derive_next_last_index (last_index n : Z) : M np_state Z :=
  modify (seterr Ignore) ;;;
  num_samples <- lift_result (ENCODING_DTYPE_of_int n) ;;
  new_last_index <- scalar_add last_index num_samples ;;
  modify (seterr Warn) ;;;
  ret new_last_index.

(** [ChunkIdEncoder._derive_value]: [row[CHUNK_ID_INDEX]]. *)
Definition _derive_value (r : row) : Z := chunk_id r.

(** ** Operations of the base [Encoder] *)

(** Modelled from the spec: [Encoder.register_samples] of the base class,
    the "extend_last_range" of the range table.  The hook
    [validate_incoming] runs before anything is written; the new bound is
    [derive_next_last_index] of the bound of the last row (of the sentinel
    when there is no row yet); [combine_condition] decides between writing
    the bound into the last row and appending a row for [item].  An [item]
    that is [None] cannot be stored as a value. *)
Definition Encoder_register_samples (item : option Z) (n : Z) : M world unit :=
  _validate_incoming_item item n ;;;
  enc <- get_self ;;
  let rows := _encoded enc in
  let bound := match last_row rows with
               | Some r => last_index r
               | None => ENCODING_DTYPE (-1)
               end in
  new_last_index <- lift_np (_derive_next_last_index bound n) ;;
  match rows with
  | _ :: _ =>
      if _combine_condition item
      then set_encoded (set_last_index rows new_last_index)
      else match item with
           | Some v => set_encoded (rows ++ [mk_row (ENCODING_DTYPE v) new_last_index])
           | None => throw TypeError
           end
  | [] =>
      match item with
      | Some v => set_encoded [mk_row (ENCODING_DTYPE v) new_last_index]
      | None => throw TypeError
      end
  end.

(** Modelled from the spec: [Encoder.__getitem__] of the base class with
    [return_row_index=True], the "lookup" of the range table.  It "fails with
    an out-of-range error if [logical_index] is negative or >= total covered
    units.  Otherwise performs binary search over the [last_index] column for
    the smallest row whose [last_index >= logical_index]; returns that row's
    [value] and its row index". *)
Definition Encoder_getitem (enc : ChunkIdEncoder) (i : Z) : result (Z * Z) :=
  if (i <? 0) || (num_samples enc <=? i)
  then raise IndexError
  else
    let row_index := Z.of_nat (searchsorted (last_index_column enc) i) in
    rbind (np_index (_encoded enc) row_index)
          (fun r => ok (_derive_value r, row_index)).

(** [enc[i]], the "get_chunk_id" of the specification: the value alone. *)
Definition get_chunk_id (enc : ChunkIdEncoder) (i : Z) : result Z :=
  rbind (Encoder_getitem enc i) (fun p => ok (fst p)).

(** ** Operations of [ChunkIdEncoder] *)

(** [ChunkIdEncoder.generate_chunk_id]; [uuid] is the integer of the
    [uuid4()] drawn by the call, a number of 128 bits, so that the cast of
    its upper half always returns. *)
Definition generate_chunk_id (uuid : Z) : M world Z :=
  let id := ENCODING_DTYPE (Z.shiftr uuid UUID_SHIFT_AMOUNT) in
  enc <- get_self ;;
  (if num_samples enc =? 0
   then set_encoded [mk_row (ENCODING_DTYPE id) (ENCODING_DTYPE (-1))]
   else
     let last_index := num_samples enc - 1 in
     let new_entry := [mk_row (ENCODING_DTYPE id) (ENCODING_DTYPE last_index)] in
     set_encoded (_encoded enc ++ new_entry)) ;;;
  ret id.

(** [ChunkIdEncoder.register_samples]: [super().register_samples(None, n)]. *)
Definition register_samples (n : Z) : M world unit :=
  Encoder_register_samples None n.

(** [ChunkIdEncoder.get_local_sample_index]. *)
Definition get_local_sample_index (enc : ChunkIdEncoder) (global_sample_index : Z)
  : result Z :=
  rbind (Encoder_getitem enc global_sample_index) (fun p =>
    let chunk_index := snd p in
    if chunk_index =? 0
    then ok global_sample_index
    else
      rbind (np_index (_encoded enc) (chunk_index - 1)) (fun current_entry =>
        let last_num_samples := last_index current_entry + 1 in
        ok (global_sample_index - last_num_samples))).

(** ** Names of chunks *)

(** The slice [s[n:]] of a string. *)
Fixpoint string_drop (n : nat) (s : string) : string :=
  match n, s with
  | O, _ => s
  | S n', String _ s' => string_drop n' s'
  | S _, EmptyString => EmptyString
  end.

(** Python's [hex]: ["0x"] and the lower-case digits, a minus sign first for
    a negative number. *)
Definition hex (x : Z) : string := HexString.of_Z x.

(** Python's [int(s, 16)] on a string of ASCII characters. *)

Definition is_space (c : ascii) : bool :=
  let n := nat_of_ascii c in
  ((9 <=? n) && (n <=? 13) || (28 <=? n) && (n <=? 32))%nat.

Fixpoint lstrip (s : string) : string :=
  match s with
  | EmptyString => EmptyString
  | String c s' => if is_space c then lstrip s' else s
  end.

Fixpoint all_space (s : string) : bool :=
  match s with
  | EmptyString => true
  | String c s' => is_space c && all_space s'
  end.

(** The digits of the literal: an underscore may separate two digits, never
    two underscores in a row and none at the end.  The result is the value,
    whether a digit was read, and what follows the digits. *)
Fixpoint scan_digits (s : string) (prev_underscore seen : bool) (acc : N)
  : option (N * bool * string) :=
  match s with
  | EmptyString => if prev_underscore then None else Some (acc, seen, s)
  | String c s' =>
      match ascii_to_digit c with
      | Some v => scan_digits s' false true (N.add v (N.mul 16 acc))
      | None =>
          if Ascii.eqb c "_"
          then if prev_underscore then None
               else scan_digits s' true seen acc
          else if prev_underscore then None
               else Some (acc, seen, s)
      end
  end.

Definition int16 (s : string) : result Z :=
  let s1 := lstrip s in
  let '(negative, s2) :=
    match s1 with
    | String c t =>
        if Ascii.eqb c "+" then (false, t)
        else if Ascii.eqb c "-" then (true, t)
        else (false, s1)
    | EmptyString => (false, s1)
    end in
  let s3 :=
    match s2 with
    | String c0 (String c1 t) =>
        if Ascii.eqb c0 "0" && (Ascii.eqb c1 "x" || Ascii.eqb c1 "X")
        then match t with
             | String c2 t' => if Ascii.eqb c2 "_" then t' else t
             | EmptyString => t
             end
        else s2
    | _ => s2
    end in
  match s3 with
  | String c _ =>
      if Ascii.eqb c "_" then raise ValueError
      else
        match scan_digits s3 false false 0 with
        | Some (n, true, rest) =>
            if all_space rest
            then ok (if negative then - Z.of_N n else Z.of_N n)
            else raise ValueError
        | _ => raise ValueError
        end
  | EmptyString => raise ValueError
  end.

(** [ChunkIdEncoder.name_from_id]: [hex(id)[2:]]. *)
Definition name_from_id (id : Z) : string := string_drop 2 (hex id).

(** [ChunkIdEncoder.id_from_name]: [int("0x" + name, 16)]. *)
Definition id_from_name (name : string) : result Z :=
  int16 (String "0" (String "x" name)).

(** [ChunkIdEncoder.get_name_for_chunk]: the column [self._encoded[:, 0]]
    indexed by [chunk_index].  The empty [_encoded] is one-dimensional and
    cannot be sliced by column. *)
Definition get_name_for_chunk (enc : ChunkIdEncoder) (chunk_index : Z)
  : result string :=
  match _encoded enc with
  | [] => raise IndexError
  | _ :: _ =>
      rbind (np_index (map chunk_id (_encoded enc)) chunk_index)
            (fun chunk_id => ok (name_from_id chunk_id))
  end.

(** A name as [name_from_id] writes it: lower-case hexadecimal digits, and no
    zero in front unless the name is ["0"]. *)
Definition is_lower_hex (c : ascii) : bool :=
  let n := nat_of_ascii c in
  ((48 <=? n) && (n <=? 57) || (97 <=? n) && (n <=? 102))%nat.

Fixpoint all_lower_hex (s : string) : bool :=
  match s with
  | EmptyString => true
  | String c s' => is_lower_hex c && all_lower_hex s'
  end.

Definition canonical_name (s : string) : bool :=
  match s with
  | EmptyString => false
  | String c s' =>
      all_lower_hex s &&
      (negb (Ascii.eqb c "0") || match s' with EmptyString => true | _ => false end)
  end.

(** ** Serialization *)

(** What [chunk_id.py] imports for serialization: the version of the package
    and the codec of [hub.core.serialize]. *)
Class Serializer : Type := {
  hub_version : string;
  serialize_chunkids : string -> list (list row) -> list byte;
  deserialize_chunkids : list byte -> result (string * list row)
}.

(** [ndarray.nbytes] of a table: two entries of eight bytes per row. *)
Definition nbytes (rows : list row) : Z :=
  Z.of_nat (length rows) * 2 * (ENCODING_BITS / 8).

(** [ChunkIdEncoder.tobytes]. *)
Definition tobytes `{Serializer} (enc : ChunkIdEncoder) : list byte :=
  serialize_chunkids hub_version [_encoded enc].

(** [ChunkIdEncoder.frombuffer]. *)
Definition frombuffer `{Serializer} (buffer : list byte) : result ChunkIdEncoder :=
  let instance := new_encoder in
  match buffer with
  | [] => ok instance
  | _ :: _ =>
      rbind (deserialize_chunkids buffer) (fun p =>
        let ids := snd p in
        if negb (nbytes ids =? 0)
        then ok (mk_encoder ids)
        else ok instance)
  end.

(** Modelled from the spec: the codec [serialize_chunkids] and
    [deserialize_chunkids] of [hub.core.serialize], which is not part of the
    sources at hand.  The buffer is "a version tag followed by the row array
    encoded as a flat sequence of fixed-width integers in row-major order, two
    columns per row", and "an empty table serializes to an empty buffer and
    must deserialize back to an empty table".  The tag is written as one byte
    for the length of the version and the characters of the version; an entry
    takes eight bytes, least significant first.  A payload that is not a whole
    number of rows is malformed. *)

Definition byte_of_Z (x : Z) : byte :=
  match Byte.of_N (Z.to_N (x mod 256)) with
  | Some b => b
  | None => x00
  end.

Definition Z_of_byte (b : byte) : Z := Z.of_N (Byte.to_N b).

Fixpoint le_bytes (k : nat) (x : Z) : list byte :=
  match k with
  | O => []
  | S k' => byte_of_Z x :: le_bytes k' (x / 256)
  end.

Fixpoint le_value (bs : list byte) : Z :=
  match bs with
  | [] => 0
  | b :: bs' => Z_of_byte b + 256 * le_value bs'
  end.

Definition entry_size : nat := Z.to_nat (ENCODING_BITS / 8).

Definition row_bytes (r : row) : list byte :=
  le_bytes entry_size (chunk_id r) ++ le_bytes entry_size (last_index r).

Fixpoint read_rows (n : nat) (bs : list byte) : list row :=
  match n with
  | O => []
  | S n' =>
      mk_row (le_value (firstn entry_size bs))
             (le_value (firstn entry_size (skipn entry_size bs)))
      :: read_rows n' (skipn (2 * entry_size) bs)
  end.

Definition spec_serialize_chunkids (version : string) (ids : list (list row))
  : list byte :=
  match concat ids with
  | [] => []
  | rows =>
      byte_of_Z (Z.of_nat (String.length version))
      :: list_byte_of_string version ++ flat_map row_bytes rows
  end.

Definition spec_deserialize_chunkids (buffer : list byte)
  : result (string * list row) :=
  match buffer with
  | [] => ok (EmptyString, [])
  | len_version :: rest =>
      let n := Z.to_nat (Z_of_byte len_version) in
      if (length rest <? n)%nat then raise SerializeError
      else
        let payload := skipn n rest in
        let stride := (2 * entry_size)%nat in
        if negb (length payload mod stride =? 0)%nat then raise SerializeError
        else ok (string_of_list_byte (firstn n rest),
                 read_rows (length payload / stride) payload)
  end.

Definition spec_serializer : Serializer := {|
  hub_version := "2.0.2";
  serialize_chunkids := spec_serialize_chunkids;
  deserialize_chunkids := spec_deserialize_chunkids
|}.

(** What the encoder expects of the codec it is given. *)
Class SerializerContract (S : Serializer) : Prop := {
  deserialize_serialize :
    forall rows,
      forallb row_in_dtype rows = true ->
      exists version,
        deserialize_chunkids (serialize_chunkids hub_version [rows])
        = ok (version, rows);
  serialize_empty :
    serialize_chunkids hub_version [[]] = []
}.

(** ** Sequences of calls *)

Inductive call : Type :=
| GenerateChunkId (uuid : Z)
| RegisterSamples (n : Z).

Definition do_call (c : call) : M world unit :=
  match c with
  | GenerateChunkId uuid => generate_chunk_id uuid ;;; ret tt
  | RegisterSamples n => register_samples n
  end.

(** The calls in order; the first exception ends the run. *)
Fixpoint run_calls (cs : list call) : M world unit :=
  match cs with
  | [] => ret tt
  | c :: cs' => do_call c ;;; run_calls cs'
  end.

Fixpoint sum_registered (cs : list call) : Z :=
  match cs with
  | [] => 0
  | GenerateChunkId _ :: cs' => sum_registered cs'
  | RegisterSamples n :: cs' => n + sum_registered cs'
  end.

Fixpoint count_generated (cs : list call) : Z :=
  match cs with
  | [] => 0
  | GenerateChunkId _ :: cs' => 1 + count_generated cs'
  | RegisterSamples _ :: cs' => count_generated cs'
  end.

(** A fresh encoder under numpy's default setting. *)
Definition initial_world : world := mk_world new_encoder (mk_np Warn []).

(** What a run of accepted calls maintains, for [total] the sum of the
    registered counts and [chunks] the number of generated ids: the bound a
    next row would start with is [total - 1] modulo [2^64]. *)
Definition call_invariant (w : world) (total chunks : Z) : Prop :=
  well_formed (self w) = true
  /\ Z.of_nat (length (_encoded (self w))) = chunks
  /\ 0 <= total
  /\ (_encoded (self w) = [] -> total = 0)
  /\ initial_bound (_encoded (self w)) = (total - 1) mod ENCODING_MODULUS.

(** ** Ordering of the bounds and ranges of the rows *)

Fixpoint non_decreasing (l : list Z) : bool :=
  match l with
  | [] => true
  | x :: l' =>
      match l' with
      | [] => true
      | y :: _ => (x <=? y) && non_decreasing l'
      end
  end.

Fixpoint strictly_increasing (l : list Z) : bool :=
  match l with
  | [] => true
  | x :: l' =>
      match l' with
      | [] => true
      | y :: _ => (x <? y) && strictly_increasing l'
      end
  end.

(** Row [k] covers the logical indices from [range_start] to [range_end]:
    row 0 starts at 0, a later row one past the bound of the row before. *)
Definition range_start (enc : ChunkIdEncoder) (k : nat) : Z :=
  match k with
  | O => 0
  | S k' => nth k' (last_index_column enc) 0 + 1
  end.

Definition range_end (enc : ChunkIdEncoder) (k : nat) : Z :=
  nth k (last_index_column enc) 0.

(** ** A reference for lookups

    What the docstrings promise, read off the calls themselves:
    [register_samples] "registers samples to the chunk ID that was generated
    last", and [get_local_sample_index] gives an index "relative to the chunk
    the sample belongs to".  [locate cs total current start i] scans the
    calls, with [total] samples registered so far, [current] the id generated
    last and [start] the first sample of its chunk, and returns the id and
    the local index of sample [i]. *)
Fixpoint locate (cs : list call) (total current start i : Z) : option (Z * Z) :=
  match cs with
  | [] => None
  | GenerateChunkId uuid :: cs' =>
      locate cs' total (ENCODING_DTYPE (Z.shiftr uuid UUID_SHIFT_AMOUNT)) total i
  | RegisterSamples n :: cs' =>
      if (total <=? i) && (i <? total + n)
      then Some (current, i - start)
      else locate cs' (total + n) current start i
  end.

(** The first sample of the chunk of the last row. *)
Definition last_chunk_start (enc : ChunkIdEncoder) : Z :=
  range_start enc (length (_encoded enc) - 1).

(** What a run keeps once samples are registered to the first chunk:
    [total] samples in all, the last row carrying the id [current] of the
    chunk that starts at sample [start]. *)
Definition lookup_invariant (w : world) (total start current : Z) : Prop :=
  well_formed (self w) = true
  /\ non_decreasing (last_index_column (self w)) = true
  /\ (exists r, last_row (_encoded (self w)) = Some r
                /\ last_index r = total - 1 /\ chunk_id r = current)
  /\ last_chunk_start (self w) = start
  /\ 1 <= total <= ENCODING_MODULUS.

(** ** Sample states *)

(** One chunk of ten samples. *)
Definition one_chunk : world :=
  mk_world (mk_encoder [mk_row 7 9]) (mk_np Warn []).

(** A second chunk, generated and not yet registered to. *)
Definition two_chunks : world :=
  mk_world (mk_encoder [mk_row 7 9; mk_row 8 9]) (mk_np Warn []).

(** The table of the docstring of [get_local_sample_index]: 2, 2 and 3
    samples. *)
Definition three_chunks : ChunkIdEncoder :=
  mk_encoder [mk_row 7 1; mk_row 8 3; mk_row 9 6].

(** ** The examples of the docstrings *)

Example docstring_ChunkIdEncoder :
  let w := snd (run_calls [GenerateChunkId (3723322941 * 2 ^ 64);
                           RegisterSamples 10; RegisterSamples 10;
                           GenerateChunkId (1893450271 * 2 ^ 64);
                           RegisterSamples 1] initial_world) in
  _encoded (self w) = [mk_row 3723322941 19; mk_row 1893450271 20]
  /\ num_samples (self w) = 21
  /\ get_chunk_id (self w) 20 = ok 1893450271.
Proof. vm_compute. repeat split; reflexivity. Qed.

Example docstring_num_chunks :
  num_chunks (self (snd (generate_chunk_id 0 initial_world))) = 1.
Proof. reflexivity. Qed.

Example docstring_get_local_sample_index :
  map (get_local_sample_index three_chunks) [0; 1; 2; 3; 6]
  = [ok 0; ok 1; ok 0; ok 1; ok 2].
Proof. reflexivity. Qed.

Example name_of_255 : name_from_id 255 = "ff"%string /\ id_from_name "ff" = ok 255.
Proof. split; reflexivity. Qed.

(** The reference scan on the calls of the class docstring: sample 15 is
    the sixteenth of the first chunk, sample 20 the first of the second. *)
Example locate_docstring :
  map (locate [GenerateChunkId (3723322941 * 2 ^ 64);
               RegisterSamples 10; RegisterSamples 10;
               GenerateChunkId (1893450271 * 2 ^ 64);
               RegisterSamples 1] 0 0 0) [15; 20; 21]
  = [Some (3723322941, 15); Some (1893450271, 0); None].
Proof. vm_compute. reflexivity. Qed.

(** What [int(s, 16)] takes and what it refuses. *)
Example int16_accepts :
  map int16 ["0xff"; "0XFF"; "0x_f"; "0x1_f"; " -0x10 "; "0f"]%string
  = [ok 255; ok 255; ok 15; ok 31; ok (-16); ok 15].
Proof. reflexivity. Qed.

Example int16_refuses :
  map int16 ["0x"; "0x__f"; "0xf_"; "0x f"; "0x-1"; "0x0x1"; "0xg"; ""]%string
  = repeat (raise ValueError) 8.
Proof. reflexivity. Qed.

Example spec_serializer_example :
  let enc := mk_encoder [mk_row 3723322941 19; mk_row 1893450271 20] in
  @frombuffer spec_serializer (@tobytes spec_serializer enc) = ok enc.
Proof. vm_compute. reflexivity. Qed.

(** * Properties *)

(** ** Arithmetic of [ENCODING_DTYPE] *)

Lemma ENCODING_MODULUS_pos : 0 < ENCODING_MODULUS.
Proof. reflexivity. Qed.

Lemma ENCODING_DTYPE_range (x : Z) : 0 <= ENCODING_DTYPE x < ENCODING_MODULUS.
Proof. apply Z.mod_pos_bound, ENCODING_MODULUS_pos. Qed.

Lemma ENCODING_DTYPE_small (x : Z) :
  0 <= x < ENCODING_MODULUS -> ENCODING_DTYPE x = x.
Proof. apply Z.mod_small. Qed.

Lemma in_dtype_iff (x : Z) : in_dtype x = true <-> 0 <= x < ENCODING_MODULUS.
Proof. unfold in_dtype. rewrite andb_true_iff, Z.leb_le, Z.ltb_lt. tauto. Qed.

Lemma in_dtype_ENCODING_DTYPE (x : Z) : in_dtype (ENCODING_DTYPE x) = true.
Proof. apply in_dtype_iff, ENCODING_DTYPE_range. Qed.

(** The sentinel of a row without samples: [-1] as an [ENCODING_DTYPE]. *)
Lemma ENCODING_DTYPE_minus_one : ENCODING_DTYPE (-1) = ENCODING_MODULUS - 1.
Proof. reflexivity. Qed.

Lemma ENCODING_DTYPE_idem (x : Z) : ENCODING_DTYPE (ENCODING_DTYPE x) = ENCODING_DTYPE x.
Proof. apply ENCODING_DTYPE_small, ENCODING_DTYPE_range. Qed.

(** An entry fills its eight bytes exactly. *)
Lemma ENCODING_MODULUS_bytes : ENCODING_MODULUS = 256 ^ Z.of_nat entry_size.
Proof. reflexivity. Qed.

Global Opaque ENCODING_MODULUS.

(** ** The last row *)

Lemma last_row_app (rows : list row) (r : row) : last_row (rows ++ [r]) = Some r.
Proof.
  induction rows as [|a rows IH]; [reflexivity|].
  simpl. destruct (rows ++ [r]) eqn:E; [destruct rows; discriminate|].
  exact IH.
Qed.

Lemma last_row_None (rows : list row) : last_row rows = None <-> rows = [].
Proof.
  split; [|intros ->; reflexivity].
  induction rows as [|a rows IH]; [reflexivity|].
  simpl. destruct rows; [discriminate|]. intros H. apply IH in H. discriminate.
Qed.

Lemma last_row_split (rows : list row) (r : row) :
  last_row rows = Some r -> exists front, rows = front ++ [r].
Proof.
  induction rows as [|a rows IH]; [discriminate|].
  simpl. destruct rows as [|b rows].
  - intros [= ->]. exists []. reflexivity.
  - intros H. destruct (IH H) as [front ->]. exists (a :: front). reflexivity.
Qed.

Lemma set_last_index_app (rows : list row) (r : row) (v : Z) :
  set_last_index (rows ++ [r]) v = rows ++ [mk_row (chunk_id r) v].
Proof.
  induction rows as [|a rows IH]; [reflexivity|].
  simpl. destruct (rows ++ [r]) eqn:E; [destruct rows; discriminate|].
  rewrite IH. reflexivity.
Qed.

Lemma num_samples_app (rows : list row) (r : row) :
  num_samples (mk_encoder (rows ++ [r])) = last_index r + 1.
Proof. unfold num_samples. simpl. rewrite last_row_app. reflexivity. Qed.

Lemma forallb_row_last (rows : list row) (r : row) :
  forallb row_in_dtype rows = true -> last_row rows = Some r ->
  0 <= last_index r < ENCODING_MODULUS.
Proof.
  intros Hwf Hl. destruct (last_row_split _ _ Hl) as [front ->].
  rewrite forallb_app in Hwf. apply andb_true_iff in Hwf as [_ Hr].
  simpl in Hr. rewrite andb_true_r in Hr.
  apply andb_true_iff in Hr as [_ Hr]. now apply in_dtype_iff.
Qed.

(** In a well-formed table [num_samples] is zero for the empty table only. *)
Lemma num_samples_zero_iff (enc : ChunkIdEncoder) :
  well_formed enc = true -> (num_samples enc = 0 <-> _encoded enc = []).
Proof.
  intros Hwf. unfold num_samples. destruct (last_row (_encoded enc)) eqn:E.
  - pose proof (forallb_row_last _ _ Hwf E) as Hr. split; [lia|].
    intros Hnil. rewrite Hnil in E. discriminate.
  - apply last_row_None in E. tauto.
Qed.

Lemma num_samples_pos (enc : ChunkIdEncoder) (r : row) :
  well_formed enc = true -> last_row (_encoded enc) = Some r ->
  0 < num_samples enc.
Proof.
  intros Hwf E. pose proof (forallb_row_last _ _ Hwf E).
  unfold num_samples. rewrite E. lia.
Qed.

(** ** What [register_samples] does *)

(** The bound [_derive_next_last_index] returns for a count below [2^64],
    and the numpy state it leaves: the sum modulo [2^64], no warning, the
    setting back on [Warn]. *)
Lemma _derive_next_last_index_run (b n : Z) (st : np_state) :
  0 <= b -> n < ENCODING_MODULUS ->
  _derive_next_last_index b n st
  = (ok ((b + n) mod ENCODING_MODULUS), mk_np Warn (np_warnings st)).
Proof.
  intros Hb Hfit.
  unfold _derive_next_last_index, bind, modify, lift_result, ret,
    ENCODING_DTYPE_of_int, ok.
  cbv beta iota.
  replace (ENCODING_MODULUS <=? n) with false by (symmetry; apply Z.leb_gt; lia).
  unfold scalar_add. cbn [seterr np_over np_warnings].
  pose proof (ENCODING_DTYPE_range n) as Hn.
  assert (E : (b + ENCODING_DTYPE n) mod ENCODING_MODULUS = (b + n) mod ENCODING_MODULUS).
  { unfold ENCODING_DTYPE. now rewrite Z.add_mod_idemp_r by lia. }
  destruct (b + ENCODING_DTYPE n <? ENCODING_MODULUS) eqn:C.
  - apply Z.ltb_lt in C. unfold ok. cbv beta iota.
    rewrite <- E, Z.mod_small by lia. reflexivity.
  - unfold ok. cbv beta iota. rewrite E. reflexivity.
Qed.

(** A count of [2^64] or more does not pass the cast: [OverflowError], and
    the setting is left on [Ignore]. *)
Lemma _derive_next_last_index_overflow (b n : Z) (st : np_state) :
  ENCODING_MODULUS <= n ->
  _derive_next_last_index b n st
  = (raise OverflowError, mk_np Ignore (np_warnings st)).
Proof.
  intros Hn.
  unfold _derive_next_last_index, bind, modify, lift_result, ret,
    ENCODING_DTYPE_of_int, ok.
  cbv beta iota.
  replace (ENCODING_MODULUS <=? n) with true by (symmetry; apply Z.leb_le; lia).
  reflexivity.
Qed.

(** The three ways [register_samples] is refused, all before any write. *)
Lemma register_samples_raises (n : Z) (w : world) :
  n < 0 \/ num_samples (self w) = 0 \/ (n = 0 /\ num_chunks (self w) < 2) ->
  exists e, register_samples n w = (raise e, w)
            /\ (e = ValueError \/ e = ChunkIdEncoderError).
Proof.
  intros H.
  unfold register_samples, Encoder_register_samples, _validate_incoming_item,
    bind, get_self, throw, ok.
  cbv beta iota.
  destruct (n <? 0) eqn:C1; [now eexists; split; [reflexivity|left]|].
  destruct (num_samples (self w) =? 0) eqn:C2;
    [now eexists; split; [reflexivity|right]|].
  destruct ((n =? 0) && (num_chunks (self w) <? 2)) eqn:C3;
    [now eexists; split; [reflexivity|right]|].
  exfalso. apply Z.ltb_ge in C1. apply Z.eqb_neq in C2.
  apply andb_false_iff in C3.
  destruct H as [H|[H|[H1 H2]]]; [lia|lia|].
  destruct C3 as [C3|C3]; [apply Z.eqb_neq in C3|apply Z.ltb_ge in C3]; lia.
Qed.

(** An accepted [register_samples] writes the new bound into the last row. *)
Lemma register_samples_returns (n : Z) (w : world) (r : row) :
  well_formed (self w) = true ->
  last_row (_encoded (self w)) = Some r ->
  0 <= n < ENCODING_MODULUS -> (n = 0 -> 2 <= num_chunks (self w)) ->
  register_samples n w
  = (ok tt,
     mk_world
       (mk_encoder (set_last_index (_encoded (self w))
                      ((last_index r + n) mod ENCODING_MODULUS)))
       (mk_np Warn (np_warnings (numpy w)))).
Proof.
  intros Hwf Hl Hn Hz.
  pose proof (forallb_row_last _ _ Hwf Hl) as Hr.
  pose proof (num_samples_pos _ _ Hwf Hl) as Hs.
  unfold register_samples, Encoder_register_samples, _validate_incoming_item,
    bind, get_self, throw, ret, lift_np, set_encoded, modify, _combine_condition, ok.
  cbv beta iota.
  destruct (n <? 0) eqn:C1; [apply Z.ltb_lt in C1; lia|].
  destruct (num_samples (self w) =? 0) eqn:C2; [apply Z.eqb_eq in C2; lia|].
  destruct ((n =? 0) && (num_chunks (self w) <? 2)) eqn:C3.
  { apply andb_true_iff in C3 as [C3 C4].
    apply Z.eqb_eq in C3. apply Z.ltb_lt in C4. specialize (Hz C3). lia. }
  rewrite Hl. rewrite _derive_next_last_index_run by lia. simpl.
  destruct (_encoded (self w)); [discriminate|]. reflexivity.
Qed.

(** A count of [2^64] or more passes the validation and fails in the cast:
    [OverflowError], the table as it was, numpy left on [Ignore]. *)
Lemma register_samples_overflows (n : Z) (w : world) (r : row) :
  well_formed (self w) = true ->
  last_row (_encoded (self w)) = Some r ->
  ENCODING_MODULUS <= n ->
  register_samples n w
  = (raise OverflowError,
     mk_world (self w) (mk_np Ignore (np_warnings (numpy w)))).
Proof.
  intros Hwf Hl Hn.
  pose proof ENCODING_MODULUS_pos as Hm.
  pose proof (num_samples_pos _ _ Hwf Hl) as Hs.
  unfold register_samples, Encoder_register_samples, _validate_incoming_item,
    bind, get_self, throw, ret, lift_np, set_encoded, modify, _combine_condition, ok.
  cbv beta iota.
  destruct (n <? 0) eqn:C1; [apply Z.ltb_lt in C1; lia|].
  destruct (num_samples (self w) =? 0) eqn:C2; [apply Z.eqb_eq in C2; lia|].
  destruct ((n =? 0) && (num_chunks (self w) <? 2)) eqn:C3.
  { apply andb_true_iff in C3 as [C3 _]. apply Z.eqb_eq in C3. lia. }
  rewrite Hl. rewrite _derive_next_last_index_overflow by lia. reflexivity.
Qed.

(** A call of [register_samples] is either refused, by the validation with
    nothing touched or by the cast with the table as it was, or it writes
    the wrapped sum into the last row. *)
Lemma register_samples_cases (n : Z) (w : world) :
  well_formed (self w) = true ->
  (exists e w1, register_samples n w = (raise e, w1)
             /\ self w1 = self w
             /\ np_warnings (numpy w1) = np_warnings (numpy w)
             /\ ((e = ValueError \/ e = ChunkIdEncoderError) /\ w1 = w
                 \/ e = OverflowError /\ ENCODING_MODULUS <= n))
  \/ (exists r, last_row (_encoded (self w)) = Some r
        /\ 0 <= n < ENCODING_MODULUS
        /\ register_samples n w
           = (ok tt,
              mk_world
                (mk_encoder (set_last_index (_encoded (self w))
                               ((last_index r + n) mod ENCODING_MODULUS)))
                (mk_np Warn (np_warnings (numpy w))))).
Proof.
  intros Hwf.
  assert (Hrefused : n < 0 \/ num_samples (self w) = 0
                     \/ (n = 0 /\ num_chunks (self w) < 2) ->
            exists e w1, register_samples n w = (raise e, w1)
              /\ self w1 = self w
              /\ np_warnings (numpy w1) = np_warnings (numpy w)
              /\ ((e = ValueError \/ e = ChunkIdEncoderError) /\ w1 = w
                  \/ e = OverflowError /\ ENCODING_MODULUS <= n)).
  { intros H. destruct (register_samples_raises n w H) as (e & He & Hk).
    exists e, w. repeat split; auto. }
  destruct (Z_lt_dec n 0) as [Hn|Hn].
  { left. apply Hrefused. tauto. }
  destruct (last_row (_encoded (self w))) as [r|] eqn:Hl.
  2:{ left. apply Hrefused. right. left.
      unfold num_samples. now rewrite Hl. }
  destruct (Z_le_dec ENCODING_MODULUS n) as [Hbig|Hfit].
  { left. eexists. eexists.
    split; [apply (register_samples_overflows n w r); assumption|].
    cbn [self numpy np_warnings]. repeat split. right. split; [reflexivity|lia]. }
  destruct (Z.eq_dec n 0) as [Hz|Hz].
  - destruct (Z_lt_dec (num_chunks (self w)) 2) as [Hc|Hc].
    + left. apply Hrefused. tauto.
    + right. exists r. repeat split; try lia.
      apply register_samples_returns; auto; lia.
  - right. exists r. repeat split; try lia.
    apply register_samples_returns; auto; lia.
Qed.

Lemma set_last_index_same (rows : list row) (r : row) :
  last_row rows = Some r -> set_last_index rows (last_index r) = rows.
Proof.
  intros Hl. destruct (last_row_split _ _ Hl) as [front ->].
  rewrite set_last_index_app. destruct r; reflexivity.
Qed.

Lemma set_last_index_length (rows : list row) (v : Z) :
  length (set_last_index rows v) = length rows.
Proof.
  induction rows as [|a rows IH]; [reflexivity|].
  simpl. destruct rows; [reflexivity|]. simpl in *. now rewrite IH.
Qed.

(** ** What [generate_chunk_id] does *)

Lemma generate_chunk_id_run (uuid : Z) (w : world) :
  well_formed (self w) = true ->
  let id := ENCODING_DTYPE (Z.shiftr uuid UUID_SHIFT_AMOUNT) in
  generate_chunk_id uuid w
  = (ok id,
     mk_world
       (mk_encoder (_encoded (self w) ++ [mk_row id (initial_bound (_encoded (self w)))]))
       (numpy w)).
Proof.
  intros Hwf id. subst id.
  unfold generate_chunk_id, bind, get_self, set_encoded, modify, ret, ok, initial_bound.
  cbv beta iota zeta. rewrite !ENCODING_DTYPE_idem.
  destruct (last_row (_encoded (self w))) as [r|] eqn:Hl.
  - pose proof (forallb_row_last _ _ Hwf Hl) as Hr.
    unfold num_samples. rewrite Hl.
    destruct (last_index r + 1 =? 0) eqn:C; [apply Z.eqb_eq in C; lia|].
    replace (last_index r + 1 - 1) with (last_index r) by lia.
    rewrite (ENCODING_DTYPE_small (last_index r)) by lia. reflexivity.
  - unfold num_samples. rewrite Hl. simpl.
    apply last_row_None in Hl. rewrite Hl, ENCODING_DTYPE_minus_one. reflexivity.
Qed.

(** ** The table stays within [ENCODING_DTYPE] *)

Lemma set_last_index_in_dtype (rows : list row) (v : Z) :
  forallb row_in_dtype rows = true -> in_dtype v = true ->
  forallb row_in_dtype (set_last_index rows v) = true.
Proof.
  intros Hwf Hv. induction rows as [|a rows IH]; [reflexivity|].
  simpl in Hwf. apply andb_true_iff in Hwf as [Ha Hrows].
  simpl. destruct rows as [|b rows].
  - simpl. unfold row_in_dtype in *. simpl.
    apply andb_true_iff in Ha as [Ha _]. now rewrite Ha, Hv.
  - change (forallb row_in_dtype (a :: set_last_index (b :: rows) v) = true).
    simpl forallb at 1. rewrite Ha. simpl. apply IH, Hrows.
Qed.

Lemma initial_bound_in_dtype (rows : list row) :
  forallb row_in_dtype rows = true -> in_dtype (initial_bound rows) = true.
Proof.
  intros Hwf. unfold initial_bound. destruct (last_row rows) eqn:Hl.
  - apply in_dtype_iff. eapply forallb_row_last; eauto.
  - apply in_dtype_iff. pose proof ENCODING_MODULUS_pos. lia.
Qed.

Lemma generate_chunk_id_well_formed (uuid : Z) (w : world) :
  well_formed (self w) = true ->
  well_formed (self (snd (generate_chunk_id uuid w))) = true.
Proof.
  intros Hwf. rewrite generate_chunk_id_run by assumption.
  unfold well_formed in *. cbn [snd self _encoded].
  rewrite forallb_app, Hwf. cbn [forallb andb].
  unfold row_in_dtype. cbn [chunk_id last_index].
  rewrite in_dtype_ENCODING_DTYPE, initial_bound_in_dtype by assumption.
  reflexivity.
Qed.

Lemma register_samples_well_formed (n : Z) (w : world) :
  well_formed (self w) = true ->
  well_formed (self (snd (register_samples n w))) = true.
Proof.
  intros Hwf.
  destruct (register_samples_cases n w Hwf)
    as [(e & w1 & -> & Hs & _)|(r & Hl & Hn & ->)].
  - cbn [snd]. now rewrite Hs.
  - cbn [snd self]. apply set_last_index_in_dtype; [exact Hwf|].
    apply in_dtype_iff, Z.mod_pos_bound, ENCODING_MODULUS_pos.
Qed.

(** ** Refused registrations *)

(** C2.  On a table of [ENCODING_DTYPE] entries, [register_samples n] raises
    a validation error, [ValueError] or [ChunkIdEncoderError], exactly when
    [n] is negative, or the table is empty, or [n] is zero with fewer than
    two chunks.  A validation error leaves the encoder and numpy as they
    were, and whatever [register_samples] raises, the table is as it was. *)
Theorem register_samples_raises_iff (n : Z) (w : world) :
  well_formed (self w) = true ->
  ((exists e, fst (register_samples n w) = raise e
              /\ (e = ValueError \/ e = ChunkIdEncoderError))
   <-> (n < 0 \/ _encoded (self w) = [] \/ (n = 0 /\ num_chunks (self w) < 2)))
  /\ (forall e, fst (register_samples n w) = raise e ->
        e = ValueError \/ e = ChunkIdEncoderError ->
        snd (register_samples n w) = w)
  /\ (forall e, fst (register_samples n w) = raise e ->
        self (snd (register_samples n w)) = self w).
Proof.
  intros Hwf.
  assert (Hbad_iff :
    (n < 0 \/ num_samples (self w) = 0 \/ (n = 0 /\ num_chunks (self w) < 2))
    <-> (n < 0 \/ _encoded (self w) = [] \/ (n = 0 /\ num_chunks (self w) < 2))).
  { now rewrite (num_samples_zero_iff _ Hwf). }
  destruct (Z_lt_dec n 0) as [Hneg|Hpos];
    [|destruct (last_row (_encoded (self w))) as [r|] eqn:Hl;
      [destruct (Z.eq_dec n 0) as [Hz|Hnz];
       [destruct (Z_lt_dec (num_chunks (self w)) 2) as [Hone|Htwo]|]|]].
  1, 2, 5:
    assert (Hbad : n < 0 \/ num_samples (self w) = 0
                   \/ (n = 0 /\ num_chunks (self w) < 2))
      by (first [tauto | right; left; unfold num_samples; now rewrite Hl]);
    destruct (register_samples_raises n w Hbad) as (e & He & Hkind);
    rewrite He; cbn [fst snd];
    (split; [split; [intros _; now apply Hbad_iff|intros _; now exists e]|]);
    (split; intros e' _; reflexivity).
  - (* zero samples with two chunks: accepted *)
    pose proof (forallb_row_last _ _ Hwf Hl) as Hr.
    rewrite (register_samples_returns n w r Hwf Hl) by lia. cbn [fst snd].
    split; [split|split; intros e He; discriminate].
    + intros (e & He & _). discriminate.
    + intros [H|[H|[_ H]]]; [lia| |lia]. rewrite H in Hl. discriminate.
  - (* a positive count: accepted, or refused by the cast *)
    assert (Hgood : ~ (n < 0 \/ _encoded (self w) = []
                       \/ (n = 0 /\ num_chunks (self w) < 2))).
    { intros [H|[H|[H _]]]; [lia| |lia]. rewrite H in Hl. discriminate. }
    destruct (Z_le_dec ENCODING_MODULUS n) as [Hbig|Hfit].
    + rewrite (register_samples_overflows n w r Hwf Hl Hbig). cbn [fst snd self].
      split; [split|split].
      * intros (e & [= <-] & [He|He]); discriminate.
      * intros H. contradiction.
      * intros e [= <-] [He|He]; discriminate.
      * intros e _. reflexivity.
    + rewrite (register_samples_returns n w r Hwf Hl) by lia. cbn [fst snd].
      split; [split|split; intros e He; discriminate].
      * intros (e & He & _). discriminate.
      * intros H. contradiction.
Qed.

(** ** A registration of zero samples *)

(** C9.  With at least two chunks, [register_samples 0] returns, and the
    rows, [num_samples] and [num_chunks] are what they were. *)
Theorem register_samples_zero_identity (w : world) :
  well_formed (self w) = true ->
  2 <= num_chunks (self w) ->
  let w' := snd (register_samples 0 w) in
  fst (register_samples 0 w) = ok tt
  /\ _encoded (self w') = _encoded (self w)
  /\ num_samples (self w') = num_samples (self w)
  /\ num_chunks (self w') = num_chunks (self w).
Proof.
  intros Hwf Hc w'. subst w'.
  destruct (last_row (_encoded (self w))) as [r|] eqn:Hl.
  2:{ exfalso. unfold num_chunks, num_samples in Hc. rewrite Hl in Hc.
      simpl in Hc. lia. }
  pose proof (forallb_row_last _ _ Hwf Hl) as Hr.
  rewrite (register_samples_returns 0 w r Hwf Hl) by lia.
  cbn [fst snd self _encoded].
  rewrite Z.add_0_r, Z.mod_small by lia.
  rewrite (set_last_index_same _ _ Hl).
  destruct (self w) as [rows]. cbn [_encoded]. auto.
Qed.

(** ** Counting samples and chunks over a run of calls *)

Lemma initial_bound_app (rows : list row) (r : row) :
  initial_bound (rows ++ [r]) = last_index r.
Proof. unfold initial_bound. now rewrite last_row_app. Qed.

Lemma initial_bound_set_last_index (rows : list row) (r : row) (v : Z) :
  last_row rows = Some r -> initial_bound (set_last_index rows v) = v.
Proof.
  intros Hl. destruct (last_row_split _ _ Hl) as [front ->].
  rewrite set_last_index_app. apply initial_bound_app.
Qed.

Lemma call_invariant_initial : call_invariant initial_world 0 0.
Proof.
  unfold call_invariant, initial_world, initial_bound. cbn.
  repeat split; try reflexivity; lia.
Qed.

Lemma call_invariant_generate (uuid : Z) (w : world) (total chunks : Z) :
  call_invariant w total chunks ->
  call_invariant (snd (generate_chunk_id uuid w)) total (chunks + 1).
Proof.
  intros (Hwf & Hlen & Htot & Hnil & Hb).
  pose proof (generate_chunk_id_well_formed uuid w Hwf) as Hwf'.
  unfold call_invariant.
  rewrite generate_chunk_id_run in * by assumption.
  cbn [snd self _encoded] in *.
  repeat split.
  - exact Hwf'.
  - rewrite length_app. cbn [length]. lia.
  - exact Htot.
  - intros H. destruct (_encoded (self w)); discriminate.
  - rewrite initial_bound_app. cbn [last_index]. exact Hb.
Qed.

Lemma call_invariant_register (n : Z) (w w' : world) (total chunks : Z) :
  call_invariant w total chunks ->
  register_samples n w = (ok tt, w') ->
  call_invariant w' (total + n) chunks.
Proof.
  intros (Hwf & Hlen & Htot & Hnil & Hb) Hrun.
  pose proof (register_samples_well_formed n w Hwf) as Hwf'.
  destruct (register_samples_cases n w Hwf)
    as [(e & w0 & He & _)|(r & Hl & Hn & Hret)].
  { rewrite He in Hrun. discriminate. }
  rewrite Hret in Hrun, Hwf'.
  injection Hrun as <-. unfold call_invariant. cbn [snd self _encoded] in *.
  repeat split.
  - exact Hwf'.
  - rewrite set_last_index_length. exact Hlen.
  - lia.
  - intros H. apply (f_equal (@length row)) in H.
    rewrite set_last_index_length in H.
    destruct (_encoded (self w)); [discriminate|discriminate].
  - rewrite (initial_bound_set_last_index _ r) by assumption.
    unfold initial_bound in Hb. rewrite Hl in Hb. rewrite Hb.
    rewrite Z.add_mod_idemp_l by (pose proof ENCODING_MODULUS_pos; lia).
    f_equal. lia.
Qed.

Lemma call_invariant_run (cs : list call) :
  forall (w w' : world) (total chunks : Z),
    call_invariant w total chunks ->
    run_calls cs w = (ok tt, w') ->
    call_invariant w' (total + sum_registered cs) (chunks + count_generated cs).
Proof.
  induction cs as [|c cs IH]; intros w w' total chunks Hinv Hrun.
  - injection Hrun as <-. cbn. now rewrite !Z.add_0_r.
  - destruct c as [uuid|n]; cbn [run_calls do_call sum_registered count_generated] in *.
    + pose proof (call_invariant_generate uuid w total chunks Hinv) as Hinv'.
      destruct Hinv as (Hwf & _).
      unfold bind in Hrun.
      rewrite generate_chunk_id_run in Hrun, Hinv' by assumption.
      unfold ok, ret in Hrun. cbv beta iota in Hrun. cbn [snd] in Hinv'.
      specialize (IH _ _ _ _ Hinv' Hrun).
      now replace (chunks + (1 + count_generated cs))
        with (chunks + 1 + count_generated cs) by lia.
    + unfold bind at 1 in Hrun.
      destruct (register_samples n w) as [[e|[]] w1] eqn:Hreg; [discriminate|].
      pose proof (call_invariant_register n w w1 total chunks Hinv Hreg) as Hinv'.
      specialize (IH _ _ _ _ Hinv' Hrun).
      now replace (total + (n + sum_registered cs))
        with (total + n + sum_registered cs) by lia.
Qed.

Lemma call_invariant_observed (w : world) (total chunks : Z) :
  call_invariant w total chunks ->
  num_chunks (self w) = chunks
  /\ (chunks = 0 -> num_samples (self w) = 0 /\ total = 0)
  /\ (0 < chunks -> num_samples (self w) = (total - 1) mod ENCODING_MODULUS + 1).
Proof.
  intros (Hwf & Hlen & Htot & Hnil & Hb).
  pose proof (num_samples_zero_iff _ Hwf) as Hz.
  unfold num_chunks. unfold initial_bound in Hb.
  destruct (last_row (_encoded (self w))) as [r|] eqn:Hl.
  - pose proof (num_samples_pos _ _ Hwf Hl) as Hpos.
    destruct (num_samples (self w) =? 0) eqn:C; [apply Z.eqb_eq in C; lia|].
    assert (Hne : _encoded (self w) <> []) by (intros E; rewrite E in Hl; discriminate).
    assert (0 < chunks).
    { destruct (_encoded (self w)); [congruence|]. cbn [length] in Hlen. lia. }
    repeat split; try lia.
    unfold num_samples. rewrite Hl, Hb. reflexivity.
  - apply last_row_None in Hl. pose proof (proj2 Hz Hl) as Hs.
    rewrite Hs. cbn. rewrite Hl in Hlen. cbn in Hlen.
    repeat split; try lia. tauto.
Qed.

(** C1, as the code has it.  After a run of calls from a fresh encoder in
    which no call is refused, [num_chunks] is the number of
    [generate_chunk_id] calls; [num_samples] is 0 while no id was generated
    (nothing could be registered then), and afterwards it is one more than
    [total - 1] modulo [2^64], for [total] the sum of the registered counts.
    So [num_samples] is that sum whenever the sum is between 1 and [2^64]. *)
Theorem run_calls_counts (cs : list call) (w' : world) :
  run_calls cs initial_world = (ok tt, w') ->
  num_chunks (self w') = count_generated cs
  /\ (count_generated cs = 0 ->
      num_samples (self w') = 0 /\ sum_registered cs = 0)
  /\ (0 < count_generated cs ->
      num_samples (self w')
      = (sum_registered cs - 1) mod ENCODING_MODULUS + 1)
  /\ (1 <= sum_registered cs <= ENCODING_MODULUS ->
      num_samples (self w') = sum_registered cs).
Proof.
  intros Hrun.
  pose proof (call_invariant_run cs _ _ _ _ call_invariant_initial Hrun) as Hinv.
  rewrite !Z.add_0_l in Hinv.
  destruct (call_invariant_observed _ _ _ Hinv) as (Hc & H0 & Hpos).
  destruct Hinv as (_ & Hlen & Htot & _).
  repeat split; try tauto.
  intros Hsum.
  assert (0 < count_generated cs) by lia.
  rewrite Hpos by assumption. rewrite Z.mod_small by lia. lia.
Qed.

(** C1 as it is worded fails on the shortest run: after one
    [generate_chunk_id] nothing is registered, yet [num_samples] is [2^64]. *)
Lemma run_calls_counts_counterexample :
  ~ (forall (cs : list call) (w' : world),
       run_calls cs initial_world = (ok tt, w') ->
       num_samples (self w') = sum_registered cs
       /\ num_chunks (self w') = count_generated cs).
Proof.
  intros H.
  specialize (H [GenerateChunkId 0]
                (mk_world (mk_encoder [mk_row 0 18446744073709551615])
                          (mk_np Warn []))).
  assert (Hrun : run_calls [GenerateChunkId 0] initial_world
                 = (ok tt, mk_world (mk_encoder [mk_row 0 18446744073709551615])
                                    (mk_np Warn [])))
    by (vm_compute; reflexivity).
  destruct (H Hrun) as [Hs _]. vm_compute in Hs. discriminate.
Qed.

(** ** The binary search *)

(** Whatever the array, the bisection ends between an entry below [v] and an
    entry that is at least [v]. *)
Lemma bisect_left_brackets (a : list Z) (v : Z) :
  forall (fuel lo hi : nat),
    (hi - lo <= fuel)%nat ->
    (lo <= hi <= length a)%nat ->
    (lo = 0%nat \/ nth (lo - 1) a 0 < v) ->
    (hi = length a \/ v <= nth hi a 0) ->
    let r := bisect_left fuel a v lo hi in
    (lo <= r <= hi)%nat
    /\ (r = 0%nat \/ nth (r - 1) a 0 < v)
    /\ (r = length a \/ v <= nth r a 0).
Proof.
  induction fuel as [|fuel IH]; intros lo hi Hfuel Hb Hlo Hhi; cbn [bisect_left].
  - assert (lo = hi) by lia. subst hi. repeat split; auto; lia.
  - destruct (lo <? hi)%nat eqn:C.
    + apply Nat.ltb_lt in C.
      pose proof (Nat.div_mod_eq (lo + hi) 2) as Hdiv.
      pose proof (Nat.mod_upper_bound (lo + hi) 2 ltac:(lia)) as Hmod.
      set (mid := ((lo + hi) / 2)%nat) in *.
      assert (Hmid : (lo <= mid < hi)%nat) by lia.
      destruct (nth mid a 0 <? v) eqn:D.
      * apply Z.ltb_lt in D.
        assert (Hlo' : S mid = 0%nat \/ nth (S mid - 1) a 0 < v).
        { right. now replace (S mid - 1)%nat with mid by lia. }
        destruct (IH (S mid) hi ltac:(lia) ltac:(lia) Hlo' Hhi) as (H1 & H2 & H3).
        repeat split; auto; lia.
      * apply Z.ltb_ge in D.
        destruct (IH lo mid ltac:(lia) ltac:(lia) Hlo (or_intror D))
          as (H1 & H2 & H3).
        repeat split; auto; lia.
    + apply Nat.ltb_ge in C. assert (lo = hi) by lia. subst hi.
      repeat split; auto; lia.
Qed.

Lemma searchsorted_brackets (a : list Z) (v : Z) :
  let r := searchsorted a v in
  (r <= length a)%nat
  /\ (r = 0%nat \/ nth (r - 1) a 0 < v)
  /\ (r = length a \/ v <= nth r a 0).
Proof.
  unfold searchsorted.
  destruct (bisect_left_brackets a v (length a) 0 (length a)
              ltac:(lia) ltac:(lia) (or_introl eq_refl) (or_introl eq_refl))
    as (H1 & H2 & H3).
  repeat split; auto; lia.
Qed.

Lemma non_decreasing_nth (a : list Z) :
  non_decreasing a = true ->
  forall i j : nat, (i <= j < length a)%nat -> nth i a 0 <= nth j a 0.
Proof.
  induction a as [|x a IH]; intros Hs i j Hij; [cbn in Hij; lia|].
  cbn [non_decreasing] in Hs.
  destruct a as [|y a].
  - cbn in Hij. assert (i = 0%nat) by lia. assert (j = 0%nat) by lia.
    subst. lia.
  - apply andb_true_iff in Hs as [Hxy Hs]. apply Z.leb_le in Hxy.
    destruct j as [|j].
    + assert (i = 0%nat) by lia. subst. lia.
    + destruct i as [|i].
      * cbn [nth]. transitivity y; [exact Hxy|].
        apply (IH Hs 0%nat j). cbn [length] in *. lia.
      * cbn [nth]. apply (IH Hs i j). cbn [length] in *. lia.
Qed.

(** In a non-decreasing array only one position is bracketed that way. *)
Lemma bracket_unique (a : list Z) (v : Z) (r k : nat) :
  non_decreasing a = true ->
  (r <= length a)%nat ->
  (r = 0%nat \/ nth (r - 1) a 0 < v) ->
  (r = length a \/ v <= nth r a 0) ->
  (k < length a)%nat ->
  (k = 0%nat \/ nth (k - 1) a 0 < v) ->
  v <= nth k a 0 ->
  r = k.
Proof.
  intros Hs Hr Hr1 Hr2 Hk Hk1 Hk2.
  destruct (Nat.lt_trichotomy r k) as [Hlt|[Heq|Hgt]]; [|exact Heq|].
  - exfalso.
    pose proof (non_decreasing_nth a Hs r (k - 1) ltac:(lia)).
    destruct Hr2 as [Hr2|Hr2]; [lia|].
    destruct Hk1 as [Hk1|Hk1]; lia.
  - exfalso.
    pose proof (non_decreasing_nth a Hs k (r - 1) ltac:(lia)).
    destruct Hr1 as [Hr1|Hr1]; lia.
Qed.

(** ** Indexing *)

Lemma np_index_of_nat {A : Type} (l : list A) (k : nat) (a : A) :
  nth_error l k = Some a -> np_index l (Z.of_nat k) = ok a.
Proof.
  intros Hk. assert (Hlt : (k < length l)%nat) by (apply nth_error_Some; congruence).
  unfold np_index.
  destruct (Z.of_nat k <? 0) eqn:C; [apply Z.ltb_lt in C; lia|].
  destruct ((0 <=? Z.of_nat k) && (Z.of_nat k <? Z.of_nat (length l))) eqn:D.
  - now rewrite Nat2Z.id, Hk.
  - apply andb_false_iff in D as [D|D];
      [apply Z.leb_gt in D|apply Z.ltb_ge in D]; lia.
Qed.

Lemma nth_last_index_column (enc : ChunkIdEncoder) (k : nat) (r : row) :
  nth_error (_encoded enc) k = Some r ->
  nth k (last_index_column enc) 0 = last_index r.
Proof.
  intros Hk. unfold last_index_column.
  change 0 with (last_index (mk_row 0 0)).
  rewrite map_nth. now rewrite (nth_error_nth _ _ _ Hk).
Qed.

Lemma last_row_nth_error (rows : list row) (r : row) :
  last_row rows = Some r -> nth_error rows (length rows - 1) = Some r.
Proof.
  intros Hl. destruct (last_row_split _ _ Hl) as [front ->].
  rewrite length_app. cbn [length].
  replace (length front + 1 - 1)%nat with (length front) by lia.
  rewrite nth_error_app2 by lia. now rewrite Nat.sub_diag.
Qed.

(** ** Lookups *)

Lemma last_index_column_length (enc : ChunkIdEncoder) :
  length (last_index_column enc) = length (_encoded enc).
Proof. apply length_map. Qed.

(** A lookup within [[0, num_samples)] returns the row the search stops at,
    and that row's range holds the index. *)
Lemma Encoder_getitem_in_range (enc : ChunkIdEncoder) (i : Z) :
  0 <= i < num_samples enc ->
  let k := searchsorted (last_index_column enc) i in
  exists r,
    nth_error (_encoded enc) k = Some r
    /\ Encoder_getitem enc i = ok (chunk_id r, Z.of_nat k)
    /\ range_start enc k <= i <= range_end enc k.
Proof.
  intros Hi k.
  destruct (searchsorted_brackets (last_index_column enc) i) as (Hk & Hlow & Hhigh).
  fold k in Hk, Hlow, Hhigh. rewrite last_index_column_length in Hk, Hhigh.
  unfold num_samples in Hi.
  destruct (last_row (_encoded enc)) as [rl|] eqn:Hl; [|lia].
  pose proof (last_row_nth_error _ _ Hl) as Hlast.
  pose proof (nth_last_index_column _ _ _ Hlast) as Hcol.
  assert (Hlen : (0 < length (_encoded enc))%nat).
  { destruct (_encoded enc); [discriminate|cbn; lia]. }
  assert (Hlt : (k < length (_encoded enc))%nat).
  { destruct (Nat.eq_dec k (length (_encoded enc))) as [E|E]; [|lia].
    exfalso. destruct Hlow as [Hlow|Hlow]; [lia|].
    rewrite E, Hcol in Hlow. lia. }
  destruct (nth_error (_encoded enc) k) as [r|] eqn:Hr;
    [|apply nth_error_None in Hr; lia].
  exists r. split; [reflexivity|]. split.
  - unfold Encoder_getitem, num_samples. rewrite Hl.
    destruct ((i <? 0) || (last_index rl + 1 <=? i)) eqn:C.
    { apply orb_true_iff in C as [C|C];
        [apply Z.ltb_lt in C|apply Z.leb_le in C]; lia. }
    fold k. rewrite (np_index_of_nat _ _ _ Hr). reflexivity.
  - unfold range_start, range_end.
    destruct Hhigh as [Hhigh|Hhigh]; [lia|].
    split; [|exact Hhigh].
    destruct k as [|k']; [lia|].
    destruct Hlow as [Hlow|Hlow]; [lia|].
    replace (S k' - 1)%nat with k' in Hlow by lia. lia.
Qed.

(** The local index is the distance from the start of the row's range. *)
Lemma get_local_sample_index_in_range (enc : ChunkIdEncoder) (i : Z) :
  0 <= i < num_samples enc ->
  get_local_sample_index enc i
  = ok (i - range_start enc (searchsorted (last_index_column enc) i)).
Proof.
  intros Hi.
  destruct (Encoder_getitem_in_range enc i Hi) as (r & Hr & Hget & _).
  unfold get_local_sample_index. rewrite Hget. unfold rbind, ok. cbn [snd].
  destruct (searchsorted (last_index_column enc) i) as [|k'] eqn:Hk.
  - cbn. now rewrite Z.sub_0_r.
  - destruct (Z.of_nat (S k') =? 0) eqn:C; [apply Z.eqb_eq in C; lia|].
    assert (Hlt : (k' < length (_encoded enc))%nat).
    { assert (S k' < length (_encoded enc))%nat
        by (apply nth_error_Some; congruence). lia. }
    destruct (nth_error (_encoded enc) k') as [prev|] eqn:Hprev;
      [|apply nth_error_None in Hprev; lia].
    replace (Z.of_nat (S k') - 1) with (Z.of_nat k') by lia.
    rewrite (np_index_of_nat _ _ _ Hprev). unfold ok.
    unfold range_start. now rewrite (nth_last_index_column _ _ _ Hprev).
Qed.

(** In a non-decreasing table the search stops at the one row whose range
    holds the index. *)
Lemma searchsorted_owner (enc : ChunkIdEncoder) (i : Z) (k : nat) :
  non_decreasing (last_index_column enc) = true ->
  (k < length (_encoded enc))%nat ->
  range_start enc k <= i <= range_end enc k ->
  searchsorted (last_index_column enc) i = k.
Proof.
  intros Hs Hk [Hlo Hhi].
  destruct (searchsorted_brackets (last_index_column enc) i) as (Hr & Hr1 & Hr2).
  apply (bracket_unique (last_index_column enc) i); auto.
  - now rewrite last_index_column_length.
  - destruct k as [|k']; [now left|right].
    unfold range_start in Hlo. replace (S k' - 1)%nat with k' by lia. lia.
Qed.

Lemma range_within_samples (enc : ChunkIdEncoder) (k : nat) :
  well_formed enc = true ->
  non_decreasing (last_index_column enc) = true ->
  (k < length (_encoded enc))%nat ->
  0 <= range_start enc k /\ range_end enc k < num_samples enc.
Proof.
  intros Hwf Hs Hk. split.
  - destruct k as [|k']; [cbn; lia|]. unfold range_start.
    destruct (nth_error (_encoded enc) k') as [prev|] eqn:Hprev;
      [|apply nth_error_None in Hprev; lia].
    rewrite (nth_last_index_column _ _ _ Hprev).
    unfold well_formed in Hwf. rewrite forallb_forall in Hwf.
    specialize (Hwf prev (nth_error_In _ _ Hprev)).
    apply andb_true_iff in Hwf as [_ Hwf]. apply in_dtype_iff in Hwf. lia.
  - unfold range_end, num_samples.
    destruct (last_row (_encoded enc)) as [rl|] eqn:Hl.
    + pose proof (last_row_nth_error _ _ Hl) as Hlast.
      rewrite <- (nth_last_index_column _ _ _ Hlast).
      pose proof (non_decreasing_nth _ Hs k (length (_encoded enc) - 1)) as Hle.
      rewrite last_index_column_length in Hle. specialize (Hle ltac:(lia)). lia.
    + apply last_row_None in Hl. rewrite Hl in Hk. cbn in Hk. lia.
Qed.


(** C4.  [get_chunk_id i] raises [IndexError] exactly when [i] is negative
    or at least [num_samples], so it does at [num_samples] itself; for any
    other [i] it returns the id of a row whose range holds [i], the only such
    row when the bounds are non-decreasing. *)
Theorem get_chunk_id_spec (enc : ChunkIdEncoder) (i : Z) :
  (get_chunk_id enc i = raise IndexError <-> (i < 0 \/ num_samples enc <= i))
  /\ get_chunk_id enc (num_samples enc) = raise IndexError
  /\ (0 <= i < num_samples enc ->
      exists (k : nat) (r : row),
        nth_error (_encoded enc) k = Some r
        /\ get_chunk_id enc i = ok (chunk_id r)
        /\ range_start enc k <= i <= range_end enc k
        /\ (non_decreasing (last_index_column enc) = true ->
            forall k' : nat,
              (k' < length (_encoded enc))%nat ->
              range_start enc k' <= i <= range_end enc k' ->
              k' = k)).
Proof.
  assert (Hout : forall j, j < 0 \/ num_samples enc <= j ->
                           get_chunk_id enc j = raise IndexError).
  { intros j Hj. unfold get_chunk_id, Encoder_getitem.
    destruct ((j <? 0) || (num_samples enc <=? j)) eqn:C; [reflexivity|].
    apply orb_false_iff in C as [C1 C2].
    apply Z.ltb_ge in C1. apply Z.leb_gt in C2. lia. }
  assert (Hin : 0 <= i < num_samples enc ->
      exists (k : nat) (r : row),
        nth_error (_encoded enc) k = Some r
        /\ get_chunk_id enc i = ok (chunk_id r)
        /\ range_start enc k <= i <= range_end enc k
        /\ (non_decreasing (last_index_column enc) = true ->
            forall k' : nat,
              (k' < length (_encoded enc))%nat ->
              range_start enc k' <= i <= range_end enc k' ->
              k' = k)).
  { intros Hi.
    destruct (Encoder_getitem_in_range enc i Hi) as (r & Hr & Hget & Hrange).
    exists (searchsorted (last_index_column enc) i), r.
    split; [exact Hr|]. split; [|split; [exact Hrange|]].
    - unfold get_chunk_id. rewrite Hget. reflexivity.
    - intros Hs k' Hk' Hrange'. symmetry. now apply searchsorted_owner. }
  split; [|split; [apply Hout; lia|exact Hin]].
  split; [|apply Hout].
  intros Hraise.
  destruct (Z_lt_dec i 0); [tauto|].
  destruct (Z_le_dec (num_samples enc) i); [tauto|].
  destruct (Hin ltac:(lia)) as (k & r & _ & Hok & _).
  rewrite Hok in Hraise. discriminate.
Qed.

(** ** Negative chunk indices *)

Lemma np_index_within {A : Type} (l : list A) (i : Z) :
  0 <= i < Z.of_nat (length l) ->
  exists a, nth_error l (Z.to_nat i) = Some a /\ np_index l i = ok a.
Proof.
  intros Hi. unfold np_index.
  destruct (i <? 0) eqn:C; [apply Z.ltb_lt in C; lia|].
  destruct ((0 <=? i) && (i <? Z.of_nat (length l))) eqn:D.
  - destruct (nth_error l (Z.to_nat i)) as [a|] eqn:E; [now exists a|].
    apply nth_error_None in E. lia.
  - apply andb_false_iff in D as [D|D];
      [apply Z.leb_gt in D|apply Z.ltb_ge in D]; lia.
Qed.

Lemma np_index_negative {A : Type} (l : list A) (j : Z) :
  1 <= j <= Z.of_nat (length l) ->
  np_index l (- j) = np_index l (Z.of_nat (length l) - j).
Proof.
  intros Hj. unfold np_index.
  destruct (- j <? 0) eqn:C; [|apply Z.ltb_ge in C; lia].
  destruct (Z.of_nat (length l) - j <? 0) eqn:D; [apply Z.ltb_lt in D; lia|].
  now replace (- j + Z.of_nat (length l)) with (Z.of_nat (length l) - j) by lia.
Qed.

Lemma get_name_for_chunk_rows (enc : ChunkIdEncoder) (i : Z) :
  _encoded enc <> [] ->
  get_name_for_chunk enc i
  = rbind (np_index (map chunk_id (_encoded enc)) i)
          (fun chunk_id => ok (name_from_id chunk_id)).
Proof.
  intros Hne. unfold get_name_for_chunk.
  destruct (_encoded enc); [congruence|reflexivity].
Qed.


(** ** Overflow of the bound *)

(** C8, as the code has it.  [_derive_next_last_index] switches the report
    of overflows off before the addition and back to [over="warn"] after it,
    on every call: whatever bound it is given, the sentinel of a first
    extension or any other, for a count from 0 to [2^64 - 1] it returns the
    sum modulo [2^64], raises nothing and adds no warning.  A count of
    [2^64] or more does not reach the addition: its cast raises
    [OverflowError], which leaves the setting on [over="ignore"]. *)
Theorem derive_next_last_index_wraps_silently (b n : Z) (st : np_state) :
  0 <= b < ENCODING_MODULUS ->
  (0 <= n < ENCODING_MODULUS ->
   _derive_next_last_index b n st
   = (ok ((b + n) mod ENCODING_MODULUS), mk_np Warn (np_warnings st)))
  /\ (ENCODING_MODULUS <= n ->
      _derive_next_last_index b n st
      = (raise OverflowError, mk_np Ignore (np_warnings st))).
Proof.
  intros Hb.
  unfold _derive_next_last_index, bind, modify, lift_result, ret,
    ENCODING_DTYPE_of_int, ok.
  cbv beta iota. split.
  - intros Hn.
    replace (ENCODING_MODULUS <=? n) with false by (symmetry; apply Z.leb_gt; lia).
    unfold scalar_add. cbn [seterr np_over np_warnings].
    rewrite (ENCODING_DTYPE_small n Hn).
    destruct (b + n <? ENCODING_MODULUS) eqn:C.
    + (* the sum fits: nothing to report *)
      apply Z.ltb_lt in C. unfold ok. cbv beta iota.
      rewrite Z.mod_small by lia. reflexivity.
    + (* the sum overflows: the setting is [Ignore], so it wraps unreported *)
      unfold ok. cbv beta iota. reflexivity.
  - intros Hn.
    replace (ENCODING_MODULUS <=? n) with true by (symmetry; apply Z.leb_le; lia).
    reflexivity.
Qed.

(** C8 as it is worded fails: the bound [2^64 - 6] is not the sentinel, ten
    more samples overflow it, and nothing is raised and no warning added. *)
Lemma derive_next_last_index_overflow_counterexample :
  ~ (forall (b n : Z) (st : np_state),
       0 <= b < 18446744073709551616 ->
       b <> ENCODING_DTYPE (-1) ->
       0 <= n ->
       18446744073709551616 <= b + n ->
       fst (_derive_next_last_index b n st) = raise FloatingPointError
       \/ np_warnings (snd (_derive_next_last_index b n st)) <> np_warnings st).
Proof.
  intros H.
  destruct (H 18446744073709551610 10 (mk_np Warn [])) as [H1|H1].
  - lia.
  - vm_compute. discriminate.
  - lia.
  - lia.
  - vm_compute in H1. discriminate.
  - apply H1. vm_compute. reflexivity.
Qed.

(** The same through [register_samples]: it never raises numpy's overflow
    report, [FloatingPointError], and never adds a warning; an accepted call
    stores the sum modulo [2^64] and leaves numpy on [over="warn"]. *)
Lemma register_samples_wraps_silently (n : Z) (w : world) :
  well_formed (self w) = true ->
  fst (register_samples n w) <> raise FloatingPointError
  /\ np_warnings (numpy (snd (register_samples n w))) = np_warnings (numpy w)
  /\ (fst (register_samples n w) = ok tt ->
      exists r,
        last_row (_encoded (self w)) = Some r
        /\ initial_bound (_encoded (self (snd (register_samples n w))))
           = (last_index r + n) mod ENCODING_MODULUS
        /\ np_over (numpy (snd (register_samples n w))) = Warn).
Proof.
  intros Hwf.
  destruct (register_samples_cases n w Hwf)
    as [(e & w1 & -> & _ & Hw & He)|(r & Hl & Hn & ->)];
    cbn [fst snd self numpy np_warnings np_over _encoded].
  - split; [destruct He as [[[-> | ->] _]|[-> _]]; discriminate|].
    split; [exact Hw|]. intros H. discriminate.
  - split; [discriminate|]. split; [reflexivity|].
    intros _. exists r. split; [exact Hl|]. split; [|reflexivity].
    now apply initial_bound_set_last_index with (r := r).
Qed.

(** A run that gets there: after [2^64 - 5] samples a registration of 10
    more overflows the bound unnoticed. *)
Lemma register_samples_overflow_unnoticed :
  ~ (forall (cs : list call) (n : Z) (w : world),
       run_calls cs initial_world = (ok tt, w) ->
       0 < sum_registered cs ->
       0 <= n ->
       18446744073709551616 <= initial_bound (_encoded (self w)) + n ->
       fst (register_samples n w) = raise FloatingPointError
       \/ np_warnings (numpy (snd (register_samples n w)))
          <> np_warnings (numpy w)).
Proof.
  intros H.
  specialize (H [GenerateChunkId 0; RegisterSamples 18446744073709551611] 10
                (mk_world (mk_encoder [mk_row 0 18446744073709551610])
                          (mk_np Warn []))).
  destruct H as [H|H].
  - vm_compute. reflexivity.
  - reflexivity.
  - lia.
  - vm_compute. discriminate.
  - vm_compute in H. discriminate.
  - apply H. vm_compute. reflexivity.
Qed.

(** ** Serialization *)

Lemma nbytes_zero_iff (rows : list row) : nbytes rows = 0 <-> rows = [].
Proof.
  unfold nbytes. change (ENCODING_BITS / 8) with 8.
  destruct rows; cbn [length]; split; intros H; try reflexivity; try discriminate; lia.
Qed.

(** With a codec that keeps its contract, [frombuffer] undoes [tobytes]. *)
Lemma frombuffer_tobytes {S : Serializer} (C : SerializerContract S)
      (enc : ChunkIdEncoder) :
  well_formed enc = true -> frombuffer (tobytes enc) = ok enc.
Proof.
  intros Hwf. destruct enc as [rows]. unfold well_formed in Hwf. cbn [_encoded] in Hwf.
  unfold frombuffer, tobytes. cbn [_encoded].
  destruct (deserialize_serialize rows Hwf) as [v Hv].
  destruct (serialize_chunkids hub_version [rows]) as [|b buffer] eqn:E.
  - destruct (deserialize_serialize [] eq_refl) as [v' Hv'].
    rewrite serialize_empty in Hv'. rewrite Hv' in Hv.
    injection Hv as _ <-. reflexivity.
  - rewrite Hv. unfold rbind, ok. cbn [snd].
    destruct (nbytes rows =? 0) eqn:D; cbn [negb]; [|reflexivity].
    apply Z.eqb_eq, nbytes_zero_iff in D. now subst rows.
Qed.

(** C6.  With a codec that keeps its contract, [frombuffer (tobytes enc)] is
    an encoder with the rows of [enc]; the empty encoder is written as the
    empty buffer, and the empty buffer is read as the empty encoder. *)
Theorem serialization_round_trip {S : Serializer} (C : SerializerContract S)
        (enc : ChunkIdEncoder) :
  well_formed enc = true ->
  frombuffer (tobytes enc) = ok enc
  /\ tobytes new_encoder = []
  /\ frombuffer [] = ok new_encoder.
Proof.
  intros Hwf. split; [now apply frombuffer_tobytes|].
  split; [apply serialize_empty|reflexivity].
Qed.

(** ** The codec modelled from the specification keeps the contract *)

Lemma Z_of_byte_of_Z (x : Z) : Z_of_byte (byte_of_Z x) = x mod 256.
Proof.
  unfold Z_of_byte, byte_of_Z.
  pose proof (Z.mod_pos_bound x 256 ltac:(lia)) as Hx.
  destruct (Byte.of_N (Z.to_N (x mod 256))) as [b|] eqn:E.
  - apply Byte.to_of_N in E. rewrite E. lia.
  - apply Byte.of_N_None_iff in E. lia.
Qed.

Lemma le_bytes_length (k : nat) (x : Z) : length (le_bytes k x) = k.
Proof. revert x. induction k as [|k IH]; intros x; cbn; [reflexivity|now rewrite IH]. Qed.

Lemma le_value_le_bytes (k : nat) :
  forall x : Z, 0 <= x < 256 ^ Z.of_nat k -> le_value (le_bytes k x) = x.
Proof.
  induction k as [|k IH]; intros x Hx.
  - cbn in *. lia.
  - cbn [le_bytes le_value]. rewrite Z_of_byte_of_Z.
    rewrite Nat2Z.inj_succ, Z.pow_succ_r in Hx by lia.
    rewrite IH.
    + pose proof (Z.div_mod x 256 ltac:(lia)). lia.
    + split; [apply Z.div_pos; lia|apply Z.div_lt_upper_bound; lia].
Qed.

Lemma firstn_exact {A : Type} (n : nat) (l l' : list A) :
  length l = n -> firstn n (l ++ l') = l.
Proof.
  intros <-. induction l as [|a l IH]; cbn; [now destruct l'|now rewrite IH].
Qed.

Lemma skipn_exact {A : Type} (n : nat) (l l' : list A) :
  length l = n -> skipn n (l ++ l') = l'.
Proof. intros <-. induction l as [|a l IH]; cbn; auto. Qed.

Lemma row_bytes_length (r : row) : length (row_bytes r) = (2 * entry_size)%nat.
Proof. unfold row_bytes. rewrite length_app, !le_bytes_length. lia. Qed.

Lemma flat_map_row_bytes_length (rows : list row) :
  length (flat_map row_bytes rows) = (length rows * (2 * entry_size))%nat.
Proof.
  induction rows as [|r rows IH]; [reflexivity|].
  cbn [flat_map length]. rewrite length_app, row_bytes_length, IH. lia.
Qed.

Lemma read_rows_row_bytes (rows : list row) :
  forallb row_in_dtype rows = true ->
  read_rows (length rows) (flat_map row_bytes rows) = rows.
Proof.
  induction rows as [|r rows IH]; intros Hwf; [reflexivity|].
  cbn [forallb] in Hwf. apply andb_true_iff in Hwf as [Hr Hwf].
  apply andb_true_iff in Hr as [Hid Hlast].
  apply in_dtype_iff in Hid. apply in_dtype_iff in Hlast.
  rewrite ENCODING_MODULUS_bytes in Hid, Hlast.
  cbn [length read_rows flat_map].
  rewrite (skipn_exact _ _ _ (row_bytes_length r)), (IH Hwf).
  unfold row_bytes. rewrite <- !app_assoc.
  rewrite (firstn_exact _ _ _ (le_bytes_length entry_size (chunk_id r))).
  rewrite (skipn_exact _ _ _ (le_bytes_length entry_size (chunk_id r))).
  rewrite (firstn_exact _ _ _ (le_bytes_length entry_size (last_index r))).
  rewrite !le_value_le_bytes by assumption.
  destruct r; reflexivity.
Qed.

Lemma list_byte_of_string_length (s : string) :
  length (list_byte_of_string s) = String.length s.
Proof.
  unfold list_byte_of_string. rewrite length_map.
  induction s as [|c s IH]; cbn; [reflexivity|now rewrite IH].
Qed.

Lemma spec_deserialize_serialize (version : string) (rows : list row) :
  (String.length version < 256)%nat ->
  forallb row_in_dtype rows = true ->
  exists v,
    spec_deserialize_chunkids (spec_serialize_chunkids version [rows]) = ok (v, rows).
Proof.
  intros Hv Hwf. unfold spec_serialize_chunkids. cbn [concat]. rewrite app_nil_r.
  destruct rows as [|r rows]; [now exists EmptyString|].
  exists version. unfold spec_deserialize_chunkids.
  rewrite Z_of_byte_of_Z, Z.mod_small, Nat2Z.id by lia.
  pose proof (list_byte_of_string_length version) as Hlen.
  rewrite length_app, Hlen.
  destruct (String.length version + length (flat_map row_bytes (r :: rows))
            <? String.length version)%nat eqn:C; [apply Nat.ltb_lt in C; lia|].
  rewrite (skipn_exact _ _ _ Hlen), (firstn_exact _ _ _ Hlen).
  rewrite flat_map_row_bytes_length.
  rewrite Nat.Div0.mod_mul, Nat.div_mul by (cbn; lia).
  cbn [Nat.eqb negb].
  now rewrite string_of_list_byte_of_string, read_rows_row_bytes.
Qed.

#[export] Instance spec_serializer_contract : SerializerContract spec_serializer.
Proof.
  split.
  - intros rows Hwf. apply spec_deserialize_serialize; [cbn; lia|exact Hwf].
  - reflexivity.
Qed.

(** ** Ordering of the bounds *)

Lemma result_eq_dec_unit (r : result unit) : {r = ok tt} + {r <> ok tt}.
Proof.
  destruct r as [e|[]]; [right; discriminate|left; reflexivity].
Qed.

Lemma non_decreasing_snoc (l : list Z) (x : Z) :
  non_decreasing (l ++ [x])
  = non_decreasing l && match l with [] => true | _ :: _ => last l 0 <=? x end.
Proof.
  induction l as [|a l IH]; [reflexivity|].
  destruct l as [|b l].
  - cbn. now rewrite andb_true_r.
  - change (non_decreasing ((a :: b :: l) ++ [x]))
      with ((a <=? b) && non_decreasing ((b :: l) ++ [x])).
    rewrite IH. change (non_decreasing (a :: b :: l))
      with ((a <=? b) && non_decreasing (b :: l)).
    change (last (a :: b :: l) 0) with (last (b :: l) 0).
    now rewrite andb_assoc.
Qed.

Lemma strictly_increasing_snoc (l : list Z) (x : Z) :
  strictly_increasing (l ++ [x])
  = strictly_increasing l && match l with [] => true | _ :: _ => last l 0 <? x end.
Proof.
  induction l as [|a l IH]; [reflexivity|].
  destruct l as [|b l].
  - cbn. now rewrite andb_true_r.
  - change (strictly_increasing ((a :: b :: l) ++ [x]))
      with ((a <? b) && strictly_increasing ((b :: l) ++ [x])).
    rewrite IH. change (strictly_increasing (a :: b :: l))
      with ((a <? b) && strictly_increasing (b :: l)).
    change (last (a :: b :: l) 0) with (last (b :: l) 0).
    now rewrite andb_assoc.
Qed.

Lemma last_index_column_app (front : list row) (r : row) :
  last_index_column (mk_encoder (front ++ [r]))
  = map last_index front ++ [last_index r].
Proof. unfold last_index_column. cbn [_encoded]. now rewrite map_app. Qed.

(** The column after [generate_chunk_id]: the old one and, once more, its
    last bound. *)
Lemma generate_chunk_id_column (uuid : Z) (w : world) :
  well_formed (self w) = true ->
  last_index_column (self (snd (generate_chunk_id uuid w)))
  = last_index_column (self w) ++ [initial_bound (_encoded (self w))].
Proof.
  intros Hwf. rewrite generate_chunk_id_run by assumption.
  cbn [snd self]. now rewrite last_index_column_app.
Qed.

Lemma initial_bound_last (rows : list row) :
  rows <> [] -> initial_bound rows = last (map last_index rows) 0.
Proof.
  intros Hne. unfold initial_bound.
  destruct (last_row rows) as [r|] eqn:Hl.
  - destruct (last_row_split _ _ Hl) as [front ->].
    rewrite map_app. cbn [map]. now rewrite last_last.
  - apply last_row_None in Hl. contradiction.
Qed.

Lemma generate_chunk_id_non_decreasing (uuid : Z) (w : world) :
  well_formed (self w) = true ->
  non_decreasing (last_index_column (self w)) = true ->
  non_decreasing (last_index_column (self (snd (generate_chunk_id uuid w)))) = true.
Proof.
  intros Hwf Hs. rewrite generate_chunk_id_column, non_decreasing_snoc, Hs by assumption.
  cbn [andb]. unfold last_index_column.
  destruct (_encoded (self w)) as [|r rows] eqn:E; [reflexivity|].
  rewrite initial_bound_last by discriminate.
  cbn [map]. apply Z.leb_refl.
Qed.

Lemma generate_chunk_id_repeats_bound (uuid : Z) (w : world) :
  well_formed (self w) = true ->
  _encoded (self w) <> [] ->
  strictly_increasing (last_index_column (self (snd (generate_chunk_id uuid w)))) = false.
Proof.
  intros Hwf Hne. rewrite generate_chunk_id_column, strictly_increasing_snoc by assumption.
  rewrite initial_bound_last by assumption. unfold last_index_column.
  destruct (_encoded (self w)) as [|r rows] eqn:E; [contradiction|].
  cbn [map]. rewrite Z.ltb_irrefl. apply andb_false_r.
Qed.

(** The column after an accepted [register_samples]. *)
Lemma register_samples_column (n : Z) (w : world) (front : list row) (r : row) :
  well_formed (self w) = true ->
  _encoded (self w) = front ++ [r] ->
  fst (register_samples n w) = ok tt ->
  0 <= n
  /\ last_index_column (self (snd (register_samples n w)))
     = map last_index front ++ [(last_index r + n) mod ENCODING_MODULUS].
Proof.
  intros Hwf E Hok.
  destruct (register_samples_cases n w Hwf)
    as [(e & w0 & He & _)|(r' & Hl & Hn & Hrun)].
  - rewrite He in Hok. discriminate.
  - rewrite E, last_row_app in Hl. injection Hl as <-.
    rewrite Hrun. cbn [snd self]. split; [apply Hn|].
    rewrite E, set_last_index_app. apply last_index_column_app.
Qed.

Lemma register_samples_refused (n : Z) (w : world) :
  well_formed (self w) = true ->
  fst (register_samples n w) <> ok tt ->
  self (snd (register_samples n w)) = self w.
Proof.
  intros Hwf Hno.
  destruct (register_samples_cases n w Hwf)
    as [(e & w0 & He & Hs & _)|(r' & Hl & Hn & Hrun)].
  - now rewrite He.
  - rewrite Hrun in Hno. now contradiction Hno.
Qed.

Lemma register_samples_non_decreasing (n : Z) (w : world) :
  well_formed (self w) = true ->
  non_decreasing (last_index_column (self w)) = true ->
  initial_bound (_encoded (self w)) + n < ENCODING_MODULUS
  \/ length (_encoded (self w)) = 1%nat ->
  non_decreasing (last_index_column (self (snd (register_samples n w)))) = true.
Proof.
  intros Hwf Hs Hfit.
  destruct (result_eq_dec_unit (fst (register_samples n w))) as [Hok|Hno].
  2:{ now rewrite register_samples_refused. }
  destruct (register_samples_cases n w Hwf)
    as [(e & w0 & He & _)|(r & Hl & _ & _)].
  { rewrite He in Hok. discriminate. }
  destruct (last_row_split _ _ Hl) as [front E].
  destruct (register_samples_column n w front r Hwf E Hok) as [Hn ->].
  pose proof (forallb_row_last _ _ Hwf Hl) as Hr.
  unfold last_index_column in Hs. rewrite E, map_app in Hs. cbn [map] in Hs.
  rewrite non_decreasing_snoc in *.
  apply andb_true_iff in Hs as [Hfront Hlast]. rewrite Hfront. cbn [andb].
  destruct (map last_index front) as [|b bs] eqn:Ef; [reflexivity|].
  destruct Hfit as [Hfit|Hone].
  - unfold initial_bound in Hfit. rewrite Hl in Hfit.
    rewrite Z.mod_small by lia. apply Z.leb_le in Hlast. apply Z.leb_le. lia.
  - rewrite E, length_app in Hone. cbn [length] in Hone.
    destruct front; [discriminate|cbn [length] in Hone; lia].
Qed.

(** Samples registered to a new chunk put its bound above the one before. *)
Lemma generate_then_register_increasing (uuid n : Z) (w : world) :
  well_formed (self w) = true ->
  strictly_increasing (last_index_column (self w)) = true ->
  _encoded (self w) <> [] ->
  0 < n ->
  initial_bound (_encoded (self w)) + n < ENCODING_MODULUS ->
  let w1 := snd (generate_chunk_id uuid w) in
  fst (register_samples n w1) = ok tt
  /\ strictly_increasing (last_index_column (self (snd (register_samples n w1)))) = true.
Proof.
  intros Hwf Hs Hne Hn Hfit w1.
  pose proof (generate_chunk_id_well_formed uuid w Hwf) as Hwf1.
  pose proof (initial_bound_in_dtype _ Hwf) as Hb. apply in_dtype_iff in Hb.
  fold w1 in Hwf1.
  assert (E1 : _encoded (self w1)
               = _encoded (self w)
                 ++ [mk_row (ENCODING_DTYPE (Z.shiftr uuid UUID_SHIFT_AMOUNT))
                            (initial_bound (_encoded (self w)))]).
  { subst w1. now rewrite generate_chunk_id_run. }
  assert (Hl1 : last_row (_encoded (self w1))
                = Some (mk_row (ENCODING_DTYPE (Z.shiftr uuid UUID_SHIFT_AMOUNT))
                               (initial_bound (_encoded (self w))))).
  { rewrite E1. apply last_row_app. }
  rewrite (register_samples_returns n w1 _ Hwf1 Hl1) by lia.
  cbn [fst snd self]. split; [reflexivity|].
  rewrite E1, set_last_index_app, last_index_column_app.
  cbn [chunk_id last_index]. rewrite Z.mod_small by lia.
  rewrite strictly_increasing_snoc. fold (last_index_column (self w)). rewrite Hs.
  cbn [andb]. rewrite initial_bound_last by assumption.
  unfold last_index_column.
  destruct (_encoded (self w)) as [|r rows]; [contradiction|].
  cbn [map]. apply Z.ltb_lt. lia.
Qed.

(** C7, as the code has it.  The bounds are in non-decreasing order, not in
    strictly increasing order.  [generate_chunk_id] keeps a non-decreasing
    column non-decreasing, and in a table that has rows it gives the new row
    the bound of the row before, so the column is not strictly increasing
    after it.  [register_samples] keeps a non-decreasing column
    non-decreasing when the new bound stays below [2^64] or the table has one
    row; a positive count registered to a new chunk makes a strictly
    increasing column strictly increasing again.  [frombuffer] returns the
    rows [tobytes] was given, in their order. *)
Theorem bounds_non_decreasing {S : Serializer} (C : SerializerContract S)
        (uuid n : Z) (w : world) :
  well_formed (self w) = true ->
  non_decreasing (last_index_column (self w)) = true ->
  non_decreasing (last_index_column (self (snd (generate_chunk_id uuid w)))) = true
  /\ (_encoded (self w) <> [] ->
      strictly_increasing
        (last_index_column (self (snd (generate_chunk_id uuid w)))) = false)
  /\ (initial_bound (_encoded (self w)) + n < ENCODING_MODULUS
      \/ length (_encoded (self w)) = 1%nat ->
      non_decreasing (last_index_column (self (snd (register_samples n w)))) = true)
  /\ (strictly_increasing (last_index_column (self w)) = true ->
      _encoded (self w) <> [] ->
      0 < n ->
      initial_bound (_encoded (self w)) + n < ENCODING_MODULUS ->
      strictly_increasing
        (last_index_column
           (self (snd (register_samples n (snd (generate_chunk_id uuid w))))))
      = true)
  /\ frombuffer (tobytes (self w)) = ok (self w).
Proof.
  intros Hwf Hs.
  split; [now apply generate_chunk_id_non_decreasing|].
  split; [now apply generate_chunk_id_repeats_bound|].
  split; [now apply register_samples_non_decreasing|].
  split; [|now apply frombuffer_tobytes].
  intros Hstrict Hne Hn Hfit.
  now apply generate_then_register_increasing.
Qed.

(** C7 as it is worded fails: a chunk id generated after ten samples starts
    with the bound 9 of the row before it. *)
Lemma bounds_strictly_increasing_counterexample :
  ~ (forall (cs : list call) (w : world),
       run_calls cs initial_world = (ok tt, w) ->
       strictly_increasing (last_index_column (self w)) = true).
Proof.
  intros H.
  specialize (H [GenerateChunkId 0; RegisterSamples 10;
                 GenerateChunkId 18446744073709551616]
                (mk_world (mk_encoder [mk_row 0 9; mk_row 1 9]) (mk_np Warn []))).
  assert (Hrun : run_calls [GenerateChunkId 0; RegisterSamples 10;
                            GenerateChunkId 18446744073709551616] initial_world
                 = (ok tt, mk_world (mk_encoder [mk_row 0 9; mk_row 1 9])
                                    (mk_np Warn [])))
    by (vm_compute; reflexivity).
  specialize (H Hrun). vm_compute in H. discriminate.
Qed.

(** ** Names and ids *)

(** Reading the digits [Raw.of_pos] writes gives the number back. *)
Lemma scan_digits_of_pos :
  forall (p : positive) (rest : string) (b seen : bool) (acc : N),
    scan_digits (Raw.of_pos p rest) b seen acc
    = scan_digits rest false true
        match acc with
        | N0 => N.pos p
        | Npos v => Npos (pos_hex_app v p)
        end.
Proof.
  fix IH 1. intros p rest b seen acc.
  do 4 try destruct p as [p|p|]; destruct acc; try reflexivity;
    cbn; rewrite IH; reflexivity.
Qed.

Lemma is_lower_hex_not_underscore (c : ascii) :
  is_lower_hex c = true -> Ascii.eqb c "_" = false /\ is_space c = false.
Proof.
  destruct c as [[] [] [] [] [] [] [] []]; cbn; intros H;
    try discriminate H; split; reflexivity.
Qed.

(** [Raw.of_pos] starts with a lower-case digit that is not ["0"]. *)
Lemma of_pos_head :
  forall (p : positive) (rest : string),
    exists c s, Raw.of_pos p rest = String c s
                /\ is_lower_hex c = true /\ Ascii.eqb c "0" = false.
Proof.
  fix IH 1. intros p rest.
  do 4 try destruct p as [p|p|];
    try (cbn; apply IH);
    cbn; eexists; eexists; (split; [reflexivity|split; reflexivity]).
Qed.

Lemma of_pos_all_lower_hex :
  forall (p : positive) (rest : string),
    all_lower_hex rest = true -> all_lower_hex (Raw.of_pos p rest) = true.
Proof.
  fix IH 1. intros p rest Hrest.
  do 4 try destruct p as [p|p|];
    try (cbn; apply IH; cbn; exact Hrest);
    cbn; exact Hrest.
Qed.

Lemma int16_prefixed (c : ascii) (s : string) :
  Ascii.eqb c "_" = false ->
  int16 (String "0" (String "x" (String c s)))
  = match scan_digits (String c s) false false 0 with
    | Some (n, true, rest) =>
        if all_space rest then ok (Z.of_N n) else raise ValueError
    | _ => raise ValueError
    end.
Proof.
  intros H. unfold int16.
  change (lstrip (String "0" (String "x" (String c s))))
    with (String "0" (String "x" (String c s))).
  cbv beta iota zeta.
  assert (E0 : Ascii.eqb "0" "+" = false) by reflexivity.
  assert (E1 : Ascii.eqb "0" "-" = false) by reflexivity.
  assert (E2 : Ascii.eqb "0" "0" && (Ascii.eqb "x" "x" || Ascii.eqb "x" "X") = true)
    by reflexivity.
  rewrite ?E0, ?E1, ?E2, ?H. cbv beta iota zeta. rewrite ?E2, ?H.
  cbv beta iota. rewrite ?H. reflexivity.
Qed.

Lemma id_from_name_name_from_id (id : Z) :
  0 <= id -> id_from_name (name_from_id id) = ok id.
Proof.
  intros Hid. destruct id as [|p|p]; [reflexivity| |lia].
  unfold id_from_name, name_from_id, hex.
  cbn [HexString.of_Z HexString.of_pos string_drop].
  destruct (of_pos_head p EmptyString) as (c & s & E & Hc & _).
  apply is_lower_hex_not_underscore in Hc as [Hc _].
  rewrite E, (int16_prefixed c s Hc), <- E.
  rewrite scan_digits_of_pos. reflexivity.
Qed.

Lemma canonical_name_name_from_id (id : Z) :
  0 <= id -> canonical_name (name_from_id id) = true.
Proof.
  intros Hid. destruct id as [|p|p]; [reflexivity| |lia].
  unfold name_from_id, hex.
  cbn [HexString.of_Z HexString.of_pos string_drop].
  pose proof (of_pos_all_lower_hex p EmptyString eq_refl) as Hall.
  destruct (of_pos_head p EmptyString) as (c & s & E & _ & H0).
  rewrite E in *. unfold canonical_name. now rewrite Hall, H0.
Qed.

(** One more lower-case digit behind a positive number. *)
Lemma lower_hex_step (c : ascii) (q : positive) :
  is_lower_hex c = true ->
  exists q1,
    (forall s b seen,
        scan_digits (String c s) b seen (Npos q) = scan_digits s false true (Npos q1))
    /\ (forall rest, Raw.of_pos q1 rest = Raw.of_pos q (String c rest)).
Proof.
  destruct c as [[] [] [] [] [] [] [] []]; cbn; intros H; try discriminate H;
    eexists; (split; [intros; cbn; reflexivity|intros; reflexivity]).
Qed.

(** A first digit that is not ["0"]. *)
Lemma lower_hex_first (c : ascii) :
  is_lower_hex c = true -> Ascii.eqb c "0" = false ->
  exists q1,
    (forall s b seen,
        scan_digits (String c s) b seen 0 = scan_digits s false true (Npos q1))
    /\ (forall rest, Raw.of_pos q1 rest = String c rest).
Proof.
  destruct c as [[] [] [] [] [] [] [] []]; cbn; intros H H0;
    try discriminate H; try discriminate H0;
    eexists; (split; [intros; cbn; reflexivity|intros; reflexivity]).
Qed.

Lemma scan_digits_lower_hex (s : string) :
  forall q : positive,
    all_lower_hex s = true ->
    exists q',
      scan_digits s false true (Npos q) = Some (Npos q', true, EmptyString)
      /\ (forall rest, Raw.of_pos q' rest = Raw.of_pos q (s ++ rest)%string).
Proof.
  induction s as [|c s IH]; intros q Hall.
  - exists q. split; reflexivity.
  - cbn [all_lower_hex] in Hall. apply andb_true_iff in Hall as [Hc Hall].
    destruct (lower_hex_step c q Hc) as (q1 & Hscan & Hpos).
    destruct (IH q1 Hall) as (q' & Hscan' & Hpos').
    exists q'. split; [now rewrite Hscan|].
    intros rest. rewrite Hpos', Hpos. reflexivity.
Qed.

Lemma append_empty_r (s : string) : (s ++ EmptyString)%string = s.
Proof. induction s as [|c s IH]; cbn; [reflexivity|now rewrite IH]. Qed.

Lemma canonical_name_round_trip (name : string) :
  canonical_name name = true ->
  exists id, 0 <= id /\ id_from_name name = ok id /\ name_from_id id = name.
Proof.
  intros Hcan. destruct name as [|c s]; [discriminate|].
  unfold canonical_name in Hcan. apply andb_true_iff in Hcan as [Hall Hlead].
  cbn [all_lower_hex] in Hall. apply andb_true_iff in Hall as [Hc Hall].
  destruct (Ascii.eqb c "0") eqn:H0.
  - apply Ascii.eqb_eq in H0. subst c.
    destruct s; [|discriminate]. exists 0. repeat split; reflexivity || lia.
  - destruct (lower_hex_first c Hc H0) as (q1 & Hscan & Hpos).
    destruct (scan_digits_lower_hex s q1 Hall) as (q' & Hscan' & Hpos').
    exists (Z.pos q'). split; [lia|]. split.
    + unfold id_from_name.
      rewrite int16_prefixed by (apply is_lower_hex_not_underscore, Hc).
      rewrite Hscan, Hscan'. reflexivity.
    + unfold name_from_id, hex.
      cbn [HexString.of_Z HexString.of_pos string_drop].
      now rewrite Hpos', Hpos, append_empty_r.
Qed.

(** C5.  [name_from_id] and [id_from_name] are inverse to each other on the
    ids and on the names [name_from_id] generates, the names [id_from_name]
    is documented for.  An id that is not negative, so every 64-bit id, comes
    back from its name, and its name is canonical: lower-case hexadecimal
    digits without a leading zero.  Every canonical name is the name of an
    id, and comes back from the id [id_from_name] reads from it. *)
Theorem name_id_round_trip :
  (forall id : Z,
      0 <= id ->
      id_from_name (name_from_id id) = ok id
      /\ canonical_name (name_from_id id) = true)
  /\ (forall name : string,
         canonical_name name = true ->
         exists id,
           0 <= id /\ id_from_name name = ok id /\ name_from_id id = name).
Proof.
  split.
  - intros id Hid. split.
    + now apply id_from_name_name_from_id.
    + now apply canonical_name_name_from_id.
  - apply canonical_name_round_trip.
Qed.

(** [int] reads more spellings than [hex] writes: ["0f"] is read as 15, but
    it is not a name [name_from_id] generates, and the name of 15 is ["f"]. *)
Remark id_from_name_reads_other_spellings :
  canonical_name "0f" = false
  /\ id_from_name "0f" = ok 15
  /\ name_from_id 15 = "f"%string.
Proof. repeat split. Qed.

(** * The theorems at sample states *)

Lemma run_calls_counts_witness :
  run_calls [GenerateChunkId 0; RegisterSamples 10] initial_world
  = (ok tt, mk_world (mk_encoder [mk_row 0 9]) (mk_np Warn []))
  /\ num_chunks (mk_encoder [mk_row 0 9]) = 1
  /\ num_samples (mk_encoder [mk_row 0 9]) = 10.
Proof.
  assert (Hrun : run_calls [GenerateChunkId 0; RegisterSamples 10] initial_world
                 = (ok tt, mk_world (mk_encoder [mk_row 0 9]) (mk_np Warn [])))
    by (vm_compute; reflexivity).
  split; [exact Hrun|].
  destruct (run_calls_counts _ _ Hrun) as (Hc & _ & _ & Hs).
  split; [exact Hc|]. apply Hs. vm_compute. split; discriminate.
Defined.

Lemma register_samples_raises_iff_witness :
  well_formed (self one_chunk) = true
  /\ ((exists e, fst (register_samples 0 one_chunk) = raise e
                 /\ (e = ValueError \/ e = ChunkIdEncoderError))
      <-> (0 < 0 \/ _encoded (self one_chunk) = []
           \/ (0 = 0 /\ num_chunks (self one_chunk) < 2)))
  /\ (forall e, fst (register_samples 0 one_chunk) = raise e ->
        e = ValueError \/ e = ChunkIdEncoderError ->
        snd (register_samples 0 one_chunk) = one_chunk)
  /\ (forall e, fst (register_samples 0 one_chunk) = raise e ->
        self (snd (register_samples 0 one_chunk)) = self one_chunk).
Proof.
  split; [reflexivity|].
  apply (register_samples_raises_iff 0 one_chunk). reflexivity.
Defined.

Lemma register_samples_zero_identity_witness :
  well_formed (self two_chunks) = true
  /\ 2 <= num_chunks (self two_chunks)
  /\ fst (register_samples 0 two_chunks) = ok tt
  /\ _encoded (self (snd (register_samples 0 two_chunks)))
     = _encoded (self two_chunks).
Proof.
  split; [reflexivity|]. split; [vm_compute; discriminate|].
  destruct (register_samples_zero_identity two_chunks) as (H1 & H2 & _).
  - reflexivity.
  - vm_compute. discriminate.
  - split; [exact H1|exact H2].
Defined.


Lemma get_chunk_id_spec_witness :
  get_chunk_id three_chunks (num_samples three_chunks) = raise IndexError.
Proof. apply (get_chunk_id_spec three_chunks 0). Defined.

Lemma name_id_round_trip_witness :
  id_from_name (name_from_id 3723322941) = ok 3723322941
  /\ canonical_name (name_from_id 3723322941) = true.
Proof. apply (proj1 name_id_round_trip). lia. Defined.

Lemma serialization_round_trip_witness :
  well_formed three_chunks = true
  /\ @frombuffer spec_serializer (@tobytes spec_serializer three_chunks)
     = ok three_chunks
  /\ @tobytes spec_serializer new_encoder = []
  /\ @frombuffer spec_serializer [] = ok new_encoder.
Proof.
  split; [reflexivity|].
  apply (serialization_round_trip spec_serializer_contract three_chunks).
  reflexivity.
Defined.

Lemma bounds_non_decreasing_witness :
  well_formed (self one_chunk) = true
  /\ non_decreasing (last_index_column (self one_chunk)) = true
  /\ non_decreasing
       (last_index_column (self (snd (generate_chunk_id 0 one_chunk)))) = true
  /\ strictly_increasing
       (last_index_column (self (snd (generate_chunk_id 0 one_chunk)))) = false.
Proof.
  split; [reflexivity|]. split; [reflexivity|].
  destruct (bounds_non_decreasing spec_serializer_contract 0 1 one_chunk)
    as (H1 & H2 & _).
  - reflexivity.
  - reflexivity.
  - split; [exact H1|]. apply H2. discriminate.
Defined.

Lemma derive_next_last_index_wraps_silently_witness :
  0 <= 18446744073709551610 < ENCODING_MODULUS
  /\ _derive_next_last_index 18446744073709551610 10 (mk_np Warn [])
     = (ok ((18446744073709551610 + 10) mod ENCODING_MODULUS), mk_np Warn [])
  /\ _derive_next_last_index 18446744073709551610 18446744073709551616
       (mk_np Warn [])
     = (raise OverflowError, mk_np Ignore []).
Proof.
  assert (H : 0 <= 18446744073709551610 < ENCODING_MODULUS)
    by (vm_compute; split; [discriminate|reflexivity]).
  split; [exact H|]. split.
  - apply (derive_next_last_index_wraps_silently _ 10 (mk_np Warn []) H).
    vm_compute. split; [discriminate|reflexivity].
  - apply (derive_next_last_index_wraps_silently _ 18446744073709551616
             (mk_np Warn []) H).
    vm_compute. discriminate.
Defined.


(** * Further properties of the encoder *)

(** ** Lookups through the row that owns an index *)

(** In a table with non-decreasing bounds, the row whose range holds [i]
    decides both lookups. *)
Lemma lookup_by_owner (enc : ChunkIdEncoder) (i : Z) (k : nat) (r : row) :
  well_formed enc = true ->
  non_decreasing (last_index_column enc) = true ->
  nth_error (_encoded enc) k = Some r ->
  range_start enc k <= i <= range_end enc k ->
  0 <= i < num_samples enc
  /\ Encoder_getitem enc i = ok (chunk_id r, Z.of_nat k)
  /\ get_chunk_id enc i = ok (chunk_id r)
  /\ get_local_sample_index enc i = ok (i - range_start enc k).
Proof.
  intros Hwf Hs Hr Hrange.
  assert (Hk : (k < length (_encoded enc))%nat)
    by (apply nth_error_Some; congruence).
  destruct (range_within_samples enc k Hwf Hs Hk) as [H0 Hn].
  assert (Hi : 0 <= i < num_samples enc) by lia.
  split; [exact Hi|].
  destruct (Encoder_getitem_in_range enc i Hi) as (r' & Hr' & Hget & _).
  pose proof (get_local_sample_index_in_range enc i Hi) as Hloc.
  rewrite (searchsorted_owner enc i k Hs Hk Hrange) in Hr', Hget, Hloc.
  rewrite Hr in Hr'. injection Hr' as <-.
  split; [exact Hget|]. split; [|exact Hloc].
  unfold get_chunk_id. now rewrite Hget.
Qed.

(** Outside [[0, num_samples)] both lookups raise [IndexError]. *)
Lemma lookup_out_of_range (enc : ChunkIdEncoder) (i : Z) :
  i < 0 \/ num_samples enc <= i ->
  get_chunk_id enc i = raise IndexError
  /\ get_local_sample_index enc i = raise IndexError.
Proof.
  intros Hi.
  assert (E : Encoder_getitem enc i = raise IndexError).
  { unfold Encoder_getitem.
    destruct ((i <? 0) || (num_samples enc <=? i)) eqn:C; [reflexivity|].
    apply orb_false_iff in C as [C1 C2].
    apply Z.ltb_ge in C1. apply Z.leb_gt in C2. lia. }
  unfold get_chunk_id, get_local_sample_index. rewrite E. split; reflexivity.
Qed.

(** A valid index has an owner. *)
Lemma owner_exists (enc : ChunkIdEncoder) (i : Z) :
  0 <= i < num_samples enc ->
  exists (k : nat) (r : row),
    nth_error (_encoded enc) k = Some r
    /\ range_start enc k <= i <= range_end enc k.
Proof.
  intros Hi.
  destruct (Encoder_getitem_in_range enc i Hi) as (r & Hr & _ & Hrange).
  eauto.
Qed.

(** ** Ranges of a table with one more row *)

Lemma range_start_snoc (rows : list row) (x : row) (k : nat) :
  (k <= length rows)%nat ->
  range_start (mk_encoder (rows ++ [x])) k
  = match k with
    | O => 0
    | S k' => nth k' (map last_index rows) 0 + 1
    end.
Proof.
  intros Hk. unfold range_start, last_index_column. cbn [_encoded].
  destruct k as [|k']; [reflexivity|].
  rewrite map_app, app_nth1 by (rewrite length_map; lia). reflexivity.
Qed.

Lemma range_end_snoc_front (rows : list row) (x : row) (k : nat) :
  (k < length rows)%nat ->
  range_end (mk_encoder (rows ++ [x])) k = nth k (map last_index rows) 0.
Proof.
  intros Hk. unfold range_end, last_index_column. cbn [_encoded].
  rewrite map_app, app_nth1 by (rewrite length_map; lia). reflexivity.
Qed.

Lemma range_end_snoc_last (rows : list row) (x : row) :
  range_end (mk_encoder (rows ++ [x])) (length rows) = last_index x.
Proof.
  unfold range_end, last_index_column. cbn [_encoded].
  rewrite map_app, app_nth2 by (rewrite length_map; lia).
  rewrite length_map, Nat.sub_diag. reflexivity.
Qed.

Lemma range_app_front (rows : list row) (x : row) (k : nat) :
  (k < length rows)%nat ->
  range_start (mk_encoder (rows ++ [x])) k = range_start (mk_encoder rows) k
  /\ range_end (mk_encoder (rows ++ [x])) k = range_end (mk_encoder rows) k.
Proof.
  intros Hk. split.
  - rewrite range_start_snoc by lia. reflexivity.
  - rewrite range_end_snoc_front by lia. reflexivity.
Qed.

Lemma last_column_entry (rows : list row) (r : row) :
  last_row rows = Some r -> last (map last_index rows) 0 = last_index r.
Proof.
  intros Hl. destruct (last_row_split _ _ Hl) as [front ->].
  rewrite map_app. cbn [map]. apply last_last.
Qed.

(** A row appended with the bound of the row before it owns no index: both
    lookups answer as before. *)
Lemma append_row_keeps_lookups (rows : list row) (new r : row) (i : Z) :
  forallb row_in_dtype rows = true ->
  row_in_dtype new = true ->
  non_decreasing (map last_index rows) = true ->
  last_row rows = Some r ->
  last_index new = last_index r ->
  get_chunk_id (mk_encoder (rows ++ [new])) i = get_chunk_id (mk_encoder rows) i
  /\ get_local_sample_index (mk_encoder (rows ++ [new])) i
     = get_local_sample_index (mk_encoder rows) i.
Proof.
  intros Hwf Hnew Hs Hl Hb.
  set (enc := mk_encoder rows). set (enc1 := mk_encoder (rows ++ [new])).
  assert (Hn : num_samples enc1 = num_samples enc).
  { unfold enc1, enc. rewrite num_samples_app. unfold num_samples. cbn [_encoded].
    rewrite Hl. lia. }
  assert (Hwf1 : well_formed enc1 = true).
  { unfold well_formed, enc1. cbn [_encoded]. rewrite forallb_app, Hwf.
    cbn [forallb]. now rewrite Hnew. }
  assert (Hs1 : non_decreasing (last_index_column enc1) = true).
  { unfold last_index_column, enc1. cbn [_encoded]. rewrite map_app. cbn [map].
    rewrite non_decreasing_snoc, Hs. cbn [andb].
    destruct (map last_index rows) as [|b bs] eqn:E; [reflexivity|].
    rewrite <- E, (last_column_entry _ _ Hl), Hb. apply Z.leb_refl. }
  destruct (Z_lt_dec i 0) as [Hneg|Hpos].
  { destruct (lookup_out_of_range enc i (or_introl Hneg)) as [-> ->].
    now apply lookup_out_of_range; left. }
  destruct (Z_le_dec (num_samples enc) i) as [Hout|Hin].
  { destruct (lookup_out_of_range enc i (or_intror Hout)) as [-> ->].
    apply lookup_out_of_range. right. lia. }
  destruct (owner_exists enc i ltac:(lia)) as (k & rk & Hk & Hrange).
  assert (Hlt : (k < length rows)%nat)
    by (apply nth_error_Some; unfold enc in Hk; cbn [_encoded] in Hk; congruence).
  destruct (range_app_front rows new k Hlt) as [Hst Hen].
  destruct (lookup_by_owner enc i k rk Hwf Hs Hk Hrange) as (_ & _ & -> & ->).
  assert (Hk1 : nth_error (_encoded enc1) k = Some rk).
  { unfold enc1. cbn [_encoded]. now rewrite nth_error_app1. }
  destruct (lookup_by_owner enc1 i k rk Hwf1 Hs1 Hk1) as (_ & _ & -> & ->).
  - unfold enc1. rewrite Hst, Hen. exact Hrange.
  - unfold enc1. rewrite Hst. split; reflexivity.
Qed.

(** Raising the bound of the last row: the indices that were valid answer as
    before, and the new ones belong to the last row. *)
Lemma extend_last_lookups (front : list row) (r : row) (b' : Z) :
  forallb row_in_dtype (front ++ [r]) = true ->
  non_decreasing (map last_index (front ++ [r])) = true ->
  last_index r <= b' < ENCODING_MODULUS ->
  let enc := mk_encoder (front ++ [r]) in
  let enc1 := mk_encoder (front ++ [mk_row (chunk_id r) b']) in
  well_formed enc1 = true
  /\ non_decreasing (last_index_column enc1) = true
  /\ last_chunk_start enc1 = last_chunk_start enc
  /\ (forall i, i <= last_index r ->
        get_chunk_id enc1 i = get_chunk_id enc i
        /\ get_local_sample_index enc1 i = get_local_sample_index enc i)
  /\ (forall i, last_index r < i <= b' ->
        get_chunk_id enc1 i = ok (chunk_id r)
        /\ get_local_sample_index enc1 i = ok (i - last_chunk_start enc)).
Proof.
  intros Hwf Hs Hb enc enc1.
  assert (Hr : 0 <= last_index r < ENCODING_MODULUS).
  { apply (forallb_row_last _ _ Hwf), last_row_app. }
  assert (Hwf1 : well_formed enc1 = true).
  { unfold well_formed, enc1. cbn [_encoded].
    rewrite forallb_app in *. apply andb_true_iff in Hwf as [Hf Hlast].
    rewrite Hf. cbn [forallb andb] in *. rewrite andb_true_r in *.
    unfold row_in_dtype in *. cbn [chunk_id last_index].
    apply andb_true_iff in Hlast as [Hid _]. rewrite Hid. cbn [andb].
    apply in_dtype_iff. lia. }
  assert (Hs1 : non_decreasing (last_index_column enc1) = true).
  { unfold last_index_column, enc1. cbn [_encoded].
    rewrite map_app in *. cbn [map last_index] in *.
    rewrite non_decreasing_snoc in *.
    apply andb_true_iff in Hs as [Hf Hlast]. rewrite Hf. cbn [andb].
    destruct (map last_index front); [reflexivity|].
    apply Z.leb_le in Hlast. apply Z.leb_le. lia. }
  assert (Hlen : forall x, (length (front ++ [x]) - 1 = length front)%nat).
  { intros x. rewrite length_app. cbn [length]. lia. }
  assert (Hstart : forall x y,
             range_start (mk_encoder (front ++ [x])) (length front)
             = range_start (mk_encoder (front ++ [y])) (length front)).
  { intros x y. now rewrite !range_start_snoc by lia. }
  assert (Hcs : last_chunk_start enc1 = last_chunk_start enc).
  { unfold last_chunk_start, enc, enc1. cbn [_encoded]. rewrite !Hlen.
    apply Hstart. }
  assert (Hlow : last_chunk_start enc <= last_index r + 1).
  { unfold last_chunk_start, enc. cbn [_encoded]. rewrite Hlen.
    destruct (length front) as [|m] eqn:E; [cbn; lia|].
    unfold range_start.
    pose proof (non_decreasing_nth _ Hs m (S m)) as Hle.
    rewrite length_map, length_app, E in Hle. cbn [length] in Hle.
    specialize (Hle ltac:(lia)).
    unfold last_index_column. cbn [_encoded].
    replace (nth (S m) (map last_index (front ++ [r])) 0) with (last_index r) in Hle.
    - lia.
    - rewrite map_app, app_nth2 by (rewrite length_map; lia).
      rewrite length_map, E, Nat.sub_diag. reflexivity. }
  assert (Hown1 : nth_error (_encoded enc1) (length front)
                  = Some (mk_row (chunk_id r) b')).
  { unfold enc1. cbn [_encoded].
    rewrite nth_error_app2, Nat.sub_diag by lia. reflexivity. }
  assert (Hend1 : range_end enc1 (length front) = b')
    by apply range_end_snoc_last.
  assert (Hst1 : range_start enc1 (length front) = last_chunk_start enc).
  { rewrite <- Hcs. unfold last_chunk_start, enc1. cbn [_encoded].
    now rewrite Hlen. }
  split; [exact Hwf1|]. split; [exact Hs1|]. split; [exact Hcs|]. split.
  - intros i Hi.
    assert (Hn : num_samples enc = last_index r + 1)
      by (unfold enc; apply num_samples_app).
    assert (Hn1 : num_samples enc1 = b' + 1)
      by (unfold enc1; apply num_samples_app).
    destruct (Z_lt_dec i 0) as [Hneg|Hpos].
    { destruct (lookup_out_of_range enc i (or_introl Hneg)) as [-> ->].
      now apply lookup_out_of_range; left. }
    destruct (owner_exists enc i ltac:(lia)) as (k & rk & Hk & Hrange).
    destruct (lookup_by_owner enc i k rk Hwf Hs Hk Hrange) as (_ & _ & -> & ->).
    assert (Hlt : (k < length (front ++ [r]))%nat)
      by (apply nth_error_Some; unfold enc in Hk; cbn [_encoded] in Hk; congruence).
    rewrite length_app in Hlt. cbn [length] in Hlt.
    destruct (Nat.eq_dec k (length front)) as [->|Hne].
    + unfold enc in Hk. cbn [_encoded] in Hk.
      rewrite nth_error_app2, Nat.sub_diag in Hk by lia. injection Hk as <-.
      assert (Hst : range_start enc (length front) = last_chunk_start enc).
      { unfold last_chunk_start, enc. cbn [_encoded]. now rewrite Hlen. }
      destruct (lookup_by_owner enc1 i (length front) _ Hwf1 Hs1 Hown1)
        as (_ & _ & -> & ->).
      * rewrite Hst1, Hend1. rewrite Hst in Hrange. lia.
      * cbn [chunk_id]. rewrite Hst1, Hst. split; reflexivity.
    + assert (Hk' : (k < length front)%nat) by lia.
      destruct (range_app_front front r k Hk') as [Hst Hen].
      destruct (range_app_front front (mk_row (chunk_id r) b') k Hk') as [Hst' Hen'].
      assert (Hk1 : nth_error (_encoded enc1) k = Some rk).
      { unfold enc1, enc in *. cbn [_encoded] in *.
        rewrite nth_error_app1 in * by lia. exact Hk. }
      destruct (lookup_by_owner enc1 i k rk Hwf1 Hs1 Hk1) as (_ & _ & -> & ->).
      * unfold enc1. rewrite Hst', Hen'. unfold enc in Hrange.
        rewrite Hst, Hen in Hrange. exact Hrange.
      * unfold enc1, enc. rewrite Hst', Hst. split; reflexivity.
  - intros i Hi.
    destruct (lookup_by_owner enc1 i (length front) _ Hwf1 Hs1 Hown1)
      as (_ & _ & -> & ->).
    + rewrite Hst1, Hend1. lia.
    + cbn [chunk_id]. rewrite Hst1. split; reflexivity.
Qed.

(** ** A new chunk id and the lookups *)

(** In a table that has rows, [generate_chunk_id] changes no answer: the
    number of samples, the chunk id of every index and its local index are
    what they were, an index out of range still raises [IndexError], and
    numpy is not touched. *)
Theorem generate_chunk_id_keeps_lookups (uuid : Z) (w : world) (i : Z) :
  well_formed (self w) = true ->
  non_decreasing (last_index_column (self w)) = true ->
  _encoded (self w) <> [] ->
  num_samples (self (snd (generate_chunk_id uuid w))) = num_samples (self w)
  /\ get_chunk_id (self (snd (generate_chunk_id uuid w))) i
     = get_chunk_id (self w) i
  /\ get_local_sample_index (self (snd (generate_chunk_id uuid w))) i
     = get_local_sample_index (self w) i
  /\ numpy (snd (generate_chunk_id uuid w)) = numpy w.
Proof.
  intros Hwf Hs Hne.
  rewrite generate_chunk_id_run by assumption. cbn [snd self numpy].
  destruct (last_row (_encoded (self w))) as [r|] eqn:Hl;
    [|apply last_row_None in Hl; contradiction].
  set (new := mk_row (ENCODING_DTYPE (Z.shiftr uuid UUID_SHIFT_AMOUNT))
                     (initial_bound (_encoded (self w)))).
  assert (Hb : last_index new = last_index r).
  { unfold new, initial_bound. now rewrite Hl. }
  assert (Hnew : row_in_dtype new = true).
  { unfold row_in_dtype, new. cbn [chunk_id last_index].
    now rewrite in_dtype_ENCODING_DTYPE, initial_bound_in_dtype. }
  destruct (self w) as [rows]. cbn [_encoded] in *.
  destruct (append_row_keeps_lookups rows new r i Hwf Hnew Hs Hl Hb) as [Hc Hloc].
  split; [|split; [exact Hc|split; [exact Hloc|reflexivity]]].
  rewrite num_samples_app. unfold num_samples. cbn [_encoded]. rewrite Hl. lia.
Qed.

(** ** Registered samples and the lookups *)


(** ** Lookups after a run of calls *)

Lemma last_chunk_start_app (rows : list row) (new r : row) :
  last_row rows = Some r ->
  last_chunk_start (mk_encoder (rows ++ [new])) = last_index r + 1.
Proof.
  intros Hl. unfold last_chunk_start. cbn [_encoded].
  rewrite length_app. cbn [length].
  replace (length rows + 1 - 1)%nat with (length rows) by lia.
  rewrite range_start_snoc by lia.
  destruct (last_row_split _ _ Hl) as [front ->].
  rewrite length_app. cbn [length].
  replace (length front + 1)%nat with (S (length front)) by lia.
  rewrite map_app, app_nth2 by (rewrite length_map; lia).
  rewrite length_map, Nat.sub_diag. reflexivity.
Qed.

Lemma lookup_invariant_generate (uuid : Z) (w : world) (total start current : Z) :
  lookup_invariant w total start current ->
  lookup_invariant (snd (generate_chunk_id uuid w)) total total
    (ENCODING_DTYPE (Z.shiftr uuid UUID_SHIFT_AMOUNT))
  /\ (forall i,
        get_chunk_id (self (snd (generate_chunk_id uuid w))) i
        = get_chunk_id (self w) i
        /\ get_local_sample_index (self (snd (generate_chunk_id uuid w))) i
           = get_local_sample_index (self w) i).
Proof.
  intros (Hwf & Hs & (r & Hl & Hb & Hc) & Hstart & Ht).
  pose proof (generate_chunk_id_well_formed uuid w Hwf) as Hwf1.
  pose proof (generate_chunk_id_non_decreasing uuid w Hwf Hs) as Hs1.
  assert (Hnew : row_in_dtype
                   (mk_row (ENCODING_DTYPE (Z.shiftr uuid UUID_SHIFT_AMOUNT))
                           (initial_bound (_encoded (self w)))) = true).
  { unfold row_in_dtype. cbn [chunk_id last_index].
    now rewrite in_dtype_ENCODING_DTYPE, initial_bound_in_dtype. }
  assert (Hib : initial_bound (_encoded (self w)) = last_index r)
    by (unfold initial_bound; now rewrite Hl).
  rewrite generate_chunk_id_run in * by assumption. cbn [snd self] in *.
  split.
  - unfold lookup_invariant. cbn [self _encoded].
    split; [exact Hwf1|]. split; [exact Hs1|]. split.
    + eexists. split; [apply last_row_app|]. cbn [last_index chunk_id].
      split; [lia|reflexivity].
    + split; [|exact Ht]. rewrite (last_chunk_start_app _ _ r Hl). lia.
  - intros i. destruct (self w) as [rows]. cbn [_encoded] in *.
    now apply (append_row_keeps_lookups rows _ r i).
Qed.

Lemma lookup_invariant_register (n : Z) (w w1 : world) (total start current : Z) :
  lookup_invariant w total start current ->
  register_samples n w = (ok tt, w1) ->
  total + n <= ENCODING_MODULUS ->
  0 <= n
  /\ lookup_invariant w1 (total + n) start current
  /\ (forall i, i < total ->
        get_chunk_id (self w1) i = get_chunk_id (self w) i
        /\ get_local_sample_index (self w1) i = get_local_sample_index (self w) i)
  /\ (forall i, total <= i < total + n ->
        get_chunk_id (self w1) i = ok current
        /\ get_local_sample_index (self w1) i = ok (i - start)).
Proof.
  intros (Hwf & Hs & (r & Hl & Hb & Hc) & Hstart & Ht) Hrun Hfit.
  destruct (register_samples_cases n w Hwf)
    as [(e & w0 & He & _)|(r' & Hl' & Hn & Hret)].
  { rewrite He in Hrun. discriminate. }
  rewrite Hl in Hl'. injection Hl' as <-.
  rewrite Hret in Hrun. injection Hrun as <-.
  rewrite Z.mod_small by lia.
  destruct (last_row_split _ _ Hl) as [front E].
  destruct (self w) as [rows] eqn:Eself. cbn [_encoded] in *. subst rows.
  cbn [self]. rewrite set_last_index_app.
  destruct (extend_last_lookups front r (last_index r + n) Hwf Hs ltac:(lia))
    as (Hwf1 & Hs1 & Hcs & Hold & Hnew).
  split; [apply Hn|]. split; [|split].
  - unfold lookup_invariant. cbn [self].
    split; [exact Hwf1|]. split; [exact Hs1|]. split.
    + eexists. split; [apply last_row_app|]. cbn [last_index chunk_id].
      split; [lia|exact Hc].
    + split; [|lia]. rewrite Hcs. exact Hstart.
  - intros i Hi. apply Hold. lia.
  - intros i Hi. rewrite <- Hc, <- Hstart. apply Hnew. lia.
Qed.

Lemma run_calls_sum_nonneg (cs : list call) :
  forall w w' : world,
    well_formed (self w) = true ->
    run_calls cs w = (ok tt, w') ->
    0 <= sum_registered cs.
Proof.
  induction cs as [|c cs IH]; intros w w' Hwf Hrun; [cbn; lia|].
  destruct c as [uuid|n]; cbn [run_calls do_call sum_registered] in *.
  - unfold bind in Hrun.
    pose proof (generate_chunk_id_well_formed uuid w Hwf) as Hwf1.
    rewrite generate_chunk_id_run in Hrun, Hwf1 by assumption.
    unfold ok, ret in Hrun. cbv beta iota in Hrun. cbn [snd] in Hwf1.
    exact (IH _ _ Hwf1 Hrun).
  - unfold bind at 1 in Hrun.
    pose proof (register_samples_well_formed n w Hwf) as Hwf1.
    destruct (register_samples_cases n w Hwf)
      as [(e & w0 & He & _)|(r & _ & Hn & Hret)].
    + rewrite He in Hrun. discriminate.
    + rewrite Hret in Hrun, Hwf1. unfold ok in Hrun. cbv beta iota in Hrun.
      cbn [snd] in Hwf1. pose proof (IH _ _ Hwf1 Hrun). lia.
Qed.

Lemma run_calls_locate_from (cs : list call) :
  forall (w w' : world) (total start current : Z),
    lookup_invariant w total start current ->
    run_calls cs w = (ok tt, w') ->
    total + sum_registered cs <= ENCODING_MODULUS ->
    (exists start' current',
        lookup_invariant w' (total + sum_registered cs) start' current')
    /\ (forall i,
          (i < total ->
           get_chunk_id (self w') i = get_chunk_id (self w) i
           /\ get_local_sample_index (self w') i
              = get_local_sample_index (self w) i)
          /\ (total <= i < total + sum_registered cs ->
              exists id loc,
                locate cs total current start i = Some (id, loc)
                /\ get_chunk_id (self w') i = ok id
                /\ get_local_sample_index (self w') i = ok loc)).
Proof.
  induction cs as [|c cs IH]; intros w w' total start current Hinv Hrun Hfit.
  - injection Hrun as <-. cbn [sum_registered]. rewrite Z.add_0_r. split.
    + now exists start, current.
    + intros i. split; [intros _; split; reflexivity|lia].
  - destruct c as [uuid|n]; cbn [run_calls do_call sum_registered locate] in *.
    + (* generate_chunk_id *)
      destruct (lookup_invariant_generate uuid w total start current Hinv)
        as [Hinv1 Hsame].
      assert (Hwf : well_formed (self w) = true) by apply Hinv.
      unfold bind in Hrun.
      rewrite generate_chunk_id_run in Hrun, Hinv1, Hsame by assumption.
      unfold ok, ret in Hrun. cbv beta iota in Hrun. cbn [snd] in Hinv1, Hsame.
      destruct (IH _ _ _ _ _ Hinv1 Hrun Hfit) as [Hinv' Hlook].
      split; [exact Hinv'|]. intros i. destruct (Hlook i) as [Hold Hnew].
      split; [|exact Hnew].
      intros Hi. destruct (Hold Hi) as [-> ->]. apply Hsame.
    + (* register_samples *)
      assert (Hwf : well_formed (self w) = true) by apply Hinv.
      pose proof (register_samples_well_formed n w Hwf) as Hwf1.
      unfold bind at 1 in Hrun.
      destruct (register_samples n w) as [[e|[]] w1] eqn:Hreg; [discriminate|].
      cbn [snd] in Hwf1.
      pose proof (run_calls_sum_nonneg cs w1 w' Hwf1 Hrun) as Hsum.
      destruct (lookup_invariant_register n w w1 total start current Hinv Hreg)
        as (Hn & Hinv1 & Hold1 & Hnew1); [lia|].
      destruct (IH _ _ _ _ _ Hinv1 Hrun ltac:(lia)) as [Hinv' Hlook].
      split.
      { destruct Hinv' as (s' & c' & Hinv').
        exists s', c'. now rewrite Z.add_assoc. }
      intros i. destruct (Hlook i) as [Hold Hnew]. split.
      * intros Hi. destruct (Hold ltac:(lia)) as [-> ->]. now apply Hold1.
      * intros Hi.
        destruct ((total <=? i) && (i <? total + n)) eqn:C.
        -- apply andb_true_iff in C as [C1 C2].
           apply Z.leb_le in C1. apply Z.ltb_lt in C2.
           destruct (Hold C2) as [-> ->].
           exists current, (i - start). split; [reflexivity|].
           now apply Hnew1.
        -- apply Hnew.
           apply andb_false_iff in C as [C|C];
             [apply Z.leb_gt in C|apply Z.ltb_ge in C]; lia.
Qed.

(** The state after the first chunk got its first samples. *)
Lemma first_chunk_registered (uuid n : Z) :
  1 <= n < ENCODING_MODULUS ->
  let id := ENCODING_DTYPE (Z.shiftr uuid UUID_SHIFT_AMOUNT) in
  run_calls [GenerateChunkId uuid; RegisterSamples n] initial_world
  = (ok tt, mk_world (mk_encoder [mk_row id (n - 1)]) (mk_np Warn [])).
Proof.
  intros Hn id. cbn [run_calls do_call]. unfold bind at 1. unfold bind at 1.
  rewrite generate_chunk_id_run by reflexivity.
  unfold ok, ret at 1. cbv beta iota.
  change (_encoded (self initial_world)) with (@nil row).
  change (numpy initial_world) with (mk_np Warn []).
  cbn [app]. fold id. unfold bind at 1.
  rewrite (register_samples_returns n _ (mk_row id (ENCODING_MODULUS - 1))).
  - unfold ok, ret. cbv beta iota. cbn [self _encoded set_last_index chunk_id
      last_index numpy np_warnings].
    replace ((ENCODING_MODULUS - 1 + n) mod ENCODING_MODULUS) with (n - 1);
      [reflexivity|].
    replace (ENCODING_MODULUS - 1 + n) with (n - 1 + 1 * ENCODING_MODULUS) by lia.
    rewrite Z_mod_plus_full, Z.mod_small by lia. reflexivity.
  - unfold well_formed. cbn [self _encoded forallb]. unfold row_in_dtype.
    cbn [chunk_id last_index]. unfold id.
    rewrite in_dtype_ENCODING_DTYPE. cbn [andb]. rewrite andb_true_r.
    now apply initial_bound_in_dtype.
  - reflexivity.
  - lia.
  - lia.
Qed.

Lemma run_calls_well_formed (cs : list call) :
  forall w : world,
    well_formed (self w) = true ->
    well_formed (self (snd (run_calls cs w))) = true.
Proof.
  induction cs as [|c cs IH]; intros w Hwf; [exact Hwf|].
  cbn [run_calls]. unfold bind at 1.
  destruct c as [uuid|n]; cbn [do_call].
  - unfold bind at 1.
    pose proof (generate_chunk_id_well_formed uuid w Hwf) as Hwf1.
    rewrite generate_chunk_id_run in * by assumption.
    unfold ok, ret. cbv beta iota. cbn [snd] in Hwf1. now apply IH.
  - pose proof (register_samples_well_formed n w Hwf) as Hwf1.
    destruct (register_samples n w) as [[e|[]] w1]; cbn [snd] in *.
    + exact Hwf1.
    + now apply IH.
Qed.

Lemma run_calls_app (cs1 cs2 : list call) :
  forall w w' : world,
    run_calls (cs1 ++ cs2) w = (ok tt, w') ->
    exists w1, run_calls cs1 w = (ok tt, w1) /\ run_calls cs2 w1 = (ok tt, w').
Proof.
  induction cs1 as [|c cs1 IH]; intros w w' Hrun.
  - exists w. split; [reflexivity|exact Hrun].
  - cbn [app run_calls] in *. unfold bind at 1 in Hrun. unfold bind at 1.
    destruct (do_call c w) as [[e|[]] w0]; [discriminate|].
    apply IH, Hrun.
Qed.

(** A count that was accepted is below [2^64]. *)
Lemma run_calls_register_accepted (cs : list call) (n : Z) (w w' : world) :
  well_formed (self w) = true ->
  run_calls (cs ++ [RegisterSamples n]) w = (ok tt, w') ->
  0 <= n < ENCODING_MODULUS.
Proof.
  intros Hwf Hrun.
  destruct (run_calls_app cs [RegisterSamples n] _ _ Hrun) as (w1 & Hcs & Hreg).
  assert (Hwf1 : well_formed (self w1) = true).
  { pose proof (run_calls_well_formed cs w Hwf) as H. now rewrite Hcs in H. }
  cbn [run_calls do_call] in Hreg. unfold bind in Hreg.
  destruct (register_samples_cases n w1 Hwf1)
    as [(e & w0 & He & _)|(r & _ & Hn & _)]; [|exact Hn].
  rewrite He in Hreg. discriminate.
Qed.

(** A run that starts with a chunk id and a positive count for it. *)
Lemma run_calls_first_chunk (uuid n : Z) (rest : list call) (w' : world) :
  1 <= n ->
  run_calls (GenerateChunkId uuid :: RegisterSamples n :: rest) initial_world
  = (ok tt, w') ->
  n + sum_registered rest <= ENCODING_MODULUS ->
  let id := ENCODING_DTYPE (Z.shiftr uuid UUID_SHIFT_AMOUNT) in
  exists w2,
    self w2 = mk_encoder [mk_row id (n - 1)]
    /\ lookup_invariant w2 n 0 id
    /\ run_calls rest w2 = (ok tt, w').
Proof.
  intros Hn Hrun Hfit id.
  destruct (run_calls_app [GenerateChunkId uuid; RegisterSamples n] rest _ _ Hrun)
    as (w2 & Hfirst & Hrest).
  assert (Hwf2 : well_formed (self w2) = true).
  { pose proof (run_calls_well_formed [GenerateChunkId uuid; RegisterSamples n]
                  initial_world eq_refl) as H.
    now rewrite Hfirst in H. }
  pose proof (run_calls_sum_nonneg rest w2 w' Hwf2 Hrest) as Hsum.
  pose proof (run_calls_register_accepted [GenerateChunkId uuid] n
                initial_world w2 eq_refl Hfirst) as Hbelow.
  rewrite (first_chunk_registered uuid n ltac:(lia)) in Hfirst.
  injection Hfirst as <-. fold id in Hwf2, Hrest |- *.
  exists (mk_world (mk_encoder [mk_row id (n - 1)]) (mk_np Warn [])).
  split; [reflexivity|]. split; [|exact Hrest].
  unfold lookup_invariant. cbn [self _encoded].
  split; [exact Hwf2|]. split; [reflexivity|]. split.
  - eexists. split; [reflexivity|]. split; reflexivity.
  - split; [reflexivity|lia].
Qed.


(** The order of the bounds over a run.  After a run as above, the entries
    of the table are in the range of [ENCODING_DTYPE], the bounds are in
    non-decreasing order, the last bound is the sum of the counts minus
    one, and there is a row for every [generate_chunk_id]. *)
Theorem run_calls_keeps_order (uuid n : Z) (rest : list call) (w' : world) :
  1 <= n ->
  run_calls (GenerateChunkId uuid :: RegisterSamples n :: rest) initial_world
  = (ok tt, w') ->
  n + sum_registered rest <= ENCODING_MODULUS ->
  well_formed (self w') = true
  /\ non_decreasing (last_index_column (self w')) = true
  /\ num_samples (self w') = n + sum_registered rest
  /\ Z.of_nat (length (_encoded (self w'))) = 1 + count_generated rest.
Proof.
  intros Hn Hrun Hfit.
  destruct (run_calls_first_chunk uuid n rest w' Hn Hrun Hfit)
    as (w2 & Hself & Hinv & Hrest).
  destruct (run_calls_locate_from rest w2 w' n 0 _ Hinv Hrest Hfit)
    as [(s' & c' & Hwf & Hs & (r & Hl & Hb & _) & _) _].
  split; [exact Hwf|]. split; [exact Hs|]. split.
  - unfold num_samples. rewrite Hl. lia.
  - pose proof (call_invariant_run _ _ _ _ _ call_invariant_initial Hrun)
      as (_ & Hlen & _).
    rewrite Hlen. cbn [count_generated]. lia.
Qed.

(** ** The local index within its chunk *)




(** With non-decreasing bounds a larger index is never looked up to an
    earlier row. *)
Theorem lookup_monotone (enc : ChunkIdEncoder) (i j : Z) :
  non_decreasing (last_index_column enc) = true ->
  0 <= i -> i <= j -> j < num_samples enc ->
  exists (ki kj : nat) (id_i id_j : Z),
    Encoder_getitem enc i = ok (id_i, Z.of_nat ki)
    /\ Encoder_getitem enc j = ok (id_j, Z.of_nat kj)
    /\ (ki <= kj)%nat.
Proof.
  intros Hs H0 Hij Hj.
  destruct (Encoder_getitem_in_range enc i ltac:(lia)) as (ri & Hri & Hgi & Hrange_i).
  destruct (Encoder_getitem_in_range enc j ltac:(lia)) as (rj & Hrj & Hgj & Hrange_j).
  set (ki := searchsorted (last_index_column enc) i) in *.
  set (kj := searchsorted (last_index_column enc) j) in *.
  exists ki, kj, (chunk_id ri), (chunk_id rj).
  split; [exact Hgi|]. split; [exact Hgj|].
  destruct (le_lt_dec ki kj) as [Hle|Hlt]; [exact Hle|exfalso].
  assert (Hki : (ki < length (last_index_column enc))%nat).
  { rewrite last_index_column_length. apply nth_error_Some. congruence. }
  destruct ki as [|ki']; [lia|].
  pose proof (non_decreasing_nth _ Hs kj ki' ltac:(lia)) as Hmono.
  unfold range_start in Hrange_i. unfold range_end in Hrange_j. lia.
Qed.

(** ** Names of the chunks of a table *)

(** Different ids have different names. *)
Theorem name_from_id_injective (a b : Z) :
  0 <= a -> 0 <= b -> name_from_id a = name_from_id b -> a = b.
Proof.
  intros Ha Hb E.
  pose proof (id_from_name_name_from_id a Ha) as Ea.
  pose proof (id_from_name_name_from_id b Hb) as Eb.
  rewrite E, Eb in Ea. now injection Ea.
Qed.

Lemma np_index_raises_iff {A : Type} (l : list A) (i : Z) :
  np_index l i = raise IndexError
  <-> (i < - Z.of_nat (length l) \/ Z.of_nat (length l) <= i).
Proof.
  unfold np_index.
  destruct (i <? 0) eqn:C; [apply Z.ltb_lt in C|apply Z.ltb_ge in C].
  - destruct ((0 <=? i + Z.of_nat (length l))
              && (i + Z.of_nat (length l) <? Z.of_nat (length l))) eqn:D.
    + apply andb_true_iff in D as [D1 D2].
      apply Z.leb_le in D1. apply Z.ltb_lt in D2.
      destruct (nth_error l (Z.to_nat (i + Z.of_nat (length l)))) eqn:E.
      * split; [discriminate|lia].
      * apply nth_error_None in E. lia.
    + split; [intros _|reflexivity].
      apply andb_false_iff in D as [D|D];
        [apply Z.leb_gt in D|apply Z.ltb_ge in D]; lia.
  - destruct ((0 <=? i) && (i <? Z.of_nat (length l))) eqn:D.
    + apply andb_true_iff in D as [D1 D2].
      apply Z.leb_le in D1. apply Z.ltb_lt in D2.
      destruct (nth_error l (Z.to_nat i)) eqn:E.
      * split; [discriminate|lia].
      * apply nth_error_None in E. lia.
    + split; [intros _|reflexivity].
      apply andb_false_iff in D as [D|D];
        [apply Z.leb_gt in D|apply Z.ltb_ge in D]; lia.
Qed.

(** [get_name_for_chunk] raises [IndexError] exactly when the index is not
    within [[-len, len)] for [len] rows, so always on the empty table.  For
    row [k] it returns the name of that row's id, and in a table of
    [ENCODING_DTYPE] entries [id_from_name] takes that name back to the
    id. *)
Theorem get_name_for_chunk_spec (enc : ChunkIdEncoder) (k : Z) :
  (get_name_for_chunk enc k = raise IndexError
   <-> (k < - Z.of_nat (length (_encoded enc))
        \/ Z.of_nat (length (_encoded enc)) <= k))
  /\ (forall r,
        0 <= k -> nth_error (_encoded enc) (Z.to_nat k) = Some r ->
        get_name_for_chunk enc k = ok (name_from_id (chunk_id r))
        /\ (well_formed enc = true ->
            rbind (get_name_for_chunk enc k) id_from_name = ok (chunk_id r))).
Proof.
  split.
  - destruct (_encoded enc) as [|r0 rows] eqn:E.
    + unfold get_name_for_chunk. rewrite E. cbn [length]. split; [lia|reflexivity].
    + rewrite <- E. rewrite get_name_for_chunk_rows by (rewrite E; discriminate).
      rewrite <- (length_map chunk_id), <- np_index_raises_iff.
      destruct (np_index (map chunk_id (_encoded enc)) k) as [e|a] eqn:D.
      * cbn [rbind]. unfold raise. split; intros [= ->]; reflexivity.
      * cbn [rbind]. split; discriminate.
  - intros r Hk Hr.
    assert (Hlt : (Z.to_nat k < length (_encoded enc))%nat)
      by (apply nth_error_Some; congruence).
    assert (Hne : _encoded enc <> [])
      by (intros E; rewrite E in Hlt; cbn in Hlt; lia).
    rewrite get_name_for_chunk_rows by assumption.
    apply (map_nth_error chunk_id) in Hr as Hid.
    rewrite <- (Z2Nat.id k Hk) at 1 2.
    rewrite (np_index_of_nat _ _ _ Hid). cbn [rbind].
    split; [reflexivity|].
    intros Hwf. unfold ok at 1. cbn [rbind]. apply id_from_name_name_from_id.
    unfold well_formed in Hwf. rewrite forallb_forall in Hwf.
    specialize (Hwf r (nth_error_In _ _ Hr)).
    apply andb_true_iff in Hwf as [Hwf _]. apply in_dtype_iff in Hwf. lia.
Qed.

(** What [id_from_name] can return: an id that is not negative, or a
    [ValueError]. *)
Lemma id_from_name_result (name : string) :
  (forall id, id_from_name name = ok id -> 0 <= id)
  /\ (forall e, id_from_name name = raise e -> e = ValueError).
Proof.
  unfold id_from_name, int16.
  change (lstrip (String "0" (String "x" name)))
    with (String "0" (String "x" name)).
  cbv beta iota zeta.
  assert (E0 : Ascii.eqb "0" "+" = false) by reflexivity.
  assert (E1 : Ascii.eqb "0" "-" = false) by reflexivity.
  assert (E2 : Ascii.eqb "0" "0" && (Ascii.eqb "x" "x" || Ascii.eqb "x" "X") = true)
    by reflexivity.
  rewrite ?E0, ?E1. cbv beta iota zeta. rewrite ?E2.
  remember (match name with
            | EmptyString => name
            | String c2 t' => if Ascii.eqb c2 "_" then t' else name
            end) as s3 eqn:Es3.
  clear Es3.
  destruct s3 as [|c s]; [split; intros x [= <-]; reflexivity|].
  destruct (Ascii.eqb c "_"); [split; intros x [= <-]; reflexivity|].
  destruct (scan_digits (String c s) false false 0) as [[[n [|]] rest]|];
    try (split; intros x [= <-]; reflexivity).
  destruct (all_space rest); split; intros x [= <-]; try reflexivity.
  apply N2Z.is_nonneg.
Qed.

(** A name that [id_from_name] accepts has the same id as the canonical name
    of that id; a name it does not accept gives a [ValueError]. *)
Theorem id_from_name_normalises (name : string) :
  (forall id,
      id_from_name name = ok id ->
      0 <= id
      /\ canonical_name (name_from_id id) = true
      /\ id_from_name (name_from_id id) = ok id)
  /\ (forall e, id_from_name name = raise e -> e = ValueError).
Proof.
  destruct (id_from_name_result name) as [Hok Herr].
  split; [|exact Herr].
  intros id Hid. pose proof (Hok id Hid) as H0.
  split; [exact H0|]. split.
  - now apply canonical_name_name_from_id.
  - now apply id_from_name_name_from_id.
Qed.

(** ** Which error a refused registration raises *)

(** [register_samples n] raises [ValueError] exactly for a negative [n],
    also on an empty table; it raises [ChunkIdEncoderError] exactly when [n]
    is not negative and the table is empty, or [n] is zero and the table has
    a single row. *)
Theorem register_samples_error_kinds (n : Z) (w : world) :
  well_formed (self w) = true ->
  (fst (register_samples n w) = raise ValueError <-> n < 0)
  /\ (fst (register_samples n w) = raise ChunkIdEncoderError
      <-> 0 <= n /\ (_encoded (self w) = []
                     \/ (n = 0 /\ length (_encoded (self w)) = 1%nat))).
Proof.
  intros Hwf.
  assert (Hchunks : _encoded (self w) <> [] ->
            num_chunks (self w) = Z.of_nat (length (_encoded (self w)))).
  { intros Hne. unfold num_chunks.
    destruct (num_samples (self w) =? 0) eqn:C; [|reflexivity].
    apply Z.eqb_eq, (num_samples_zero_iff _ Hwf) in C. contradiction. }
  destruct (Z_lt_dec n 0) as [Hneg|Hpos].
  { assert (E : register_samples n w = (raise ValueError, w)).
    { unfold register_samples, Encoder_register_samples, _validate_incoming_item,
        bind, get_self, throw, ok. cbv beta iota.
      replace (n <? 0) with true by (symmetry; apply Z.ltb_lt; lia).
      reflexivity. }
    rewrite E. cbn [fst]. split; [tauto|]. split; [discriminate|lia]. }
  destruct (last_row (_encoded (self w))) as [r|] eqn:Hl.
  2:{ apply last_row_None in Hl.
      assert (E : register_samples n w = (raise ChunkIdEncoderError, w)).
      { unfold register_samples, Encoder_register_samples, _validate_incoming_item,
          bind, get_self, throw, ok. cbv beta iota.
        replace (n <? 0) with false by (symmetry; apply Z.ltb_ge; lia).
        replace (num_samples (self w) =? 0) with true; [reflexivity|].
        symmetry. apply Z.eqb_eq, (num_samples_zero_iff _ Hwf), Hl. }
      rewrite E. cbn [fst]. split; [split; [discriminate|lia]|].
      split; [intros _; split; [lia|now left]|reflexivity]. }
  assert (Hne : _encoded (self w) <> [])
    by (intros E; rewrite E in Hl; discriminate).
  pose proof (num_samples_pos _ _ Hwf Hl) as Hns.
  specialize (Hchunks Hne).
  assert (Hlen : (0 < length (_encoded (self w)))%nat).
  { destruct (_encoded (self w)); [contradiction|cbn; lia]. }
  destruct (Z.eq_dec n 0) as [Hz|Hnz].
  - destruct (Z_lt_dec (num_chunks (self w)) 2) as [Hone|Htwo].
    + assert (E : register_samples n w = (raise ChunkIdEncoderError, w)).
      { unfold register_samples, Encoder_register_samples, _validate_incoming_item,
          bind, get_self, throw, ok. cbv beta iota.
        replace (n <? 0) with false by (symmetry; apply Z.ltb_ge; lia).
        replace (num_samples (self w) =? 0) with false
          by (symmetry; apply Z.eqb_neq; lia).
        replace (n =? 0) with true by (symmetry; apply Z.eqb_eq; lia).
        replace (num_chunks (self w) <? 2) with true
          by (symmetry; apply Z.ltb_lt; lia).
        reflexivity. }
      rewrite E. cbn [fst]. split; [split; [discriminate|lia]|].
      split; [intros _; split; [lia|right; split; lia]|reflexivity].
    + pose proof ENCODING_MODULUS_pos as Hm.
      rewrite (register_samples_returns n w r Hwf Hl) by lia. cbn [fst].
      split; [split; [discriminate|lia]|].
      split; [discriminate|]. intros [_ [E|[_ E]]]; [contradiction|lia].
  - destruct (Z_le_dec ENCODING_MODULUS n) as [Hbig|Hfit].
    + (* refused by the cast: neither of the two validation errors *)
      rewrite (register_samples_overflows n w r Hwf Hl Hbig). cbn [fst].
      split; [split; [discriminate|lia]|].
      split; [discriminate|]. intros [_ [E|[E _]]]; [contradiction|lia].
    + rewrite (register_samples_returns n w r Hwf Hl) by lia. cbn [fst].
      split; [split; [discriminate|lia]|].
      split; [discriminate|]. intros [_ [E|[E _]]]; [contradiction|lia].
Qed.

(** ** Registrations add up *)

(** Two registrations of positive counts whose sum is below [2^64] are both
    accepted, and leave the encoder and numpy as one registration of the sum
    does. *)
Theorem register_samples_additive (a b : Z) (w : world) :
  well_formed (self w) = true ->
  _encoded (self w) <> [] ->
  0 < a -> 0 < b -> a + b < ENCODING_MODULUS ->
  fst (register_samples a w) = ok tt
  /\ fst (register_samples b (snd (register_samples a w))) = ok tt
  /\ snd (register_samples b (snd (register_samples a w)))
     = snd (register_samples (a + b) w).
Proof.
  intros Hwf Hne Ha Hb Hsum.
  destruct (last_row (_encoded (self w))) as [r|] eqn:Hl;
    [|apply last_row_None in Hl; contradiction].
  pose proof (register_samples_well_formed a w Hwf) as Hwf1.
  rewrite (register_samples_returns a w r Hwf Hl) in * by lia.
  rewrite (register_samples_returns (a + b) w r Hwf Hl) by lia.
  cbn [fst snd] in *.
  destruct (last_row_split _ _ Hl) as [front E].
  set (r1 := mk_row (chunk_id r) ((last_index r + a) mod ENCODING_MODULUS)).
  assert (Hl1 : last_row
                  (set_last_index (_encoded (self w))
                     ((last_index r + a) mod ENCODING_MODULUS)) = Some r1).
  { rewrite E, set_last_index_app. apply last_row_app. }
  rewrite (register_samples_returns b _ r1 Hwf1 Hl1) by lia.
  cbn [fst snd self _encoded numpy np_warnings].
  split; [reflexivity|]. split; [reflexivity|].
  subst r1. rewrite E, !set_last_index_app. cbn [chunk_id last_index].
  rewrite Z.add_mod_idemp_l by (pose proof ENCODING_MODULUS_pos; lia).
  now rewrite Z.add_assoc.
Qed.

(** ** The id that [generate_chunk_id] returns *)

(** The name at index [-1] is the name of the id in the last row. *)
Lemma get_name_for_chunk_last (enc : ChunkIdEncoder) (r : row) :
  last_row (_encoded enc) = Some r ->
  get_name_for_chunk enc (-1) = ok (name_from_id (chunk_id r)).
Proof.
  intros Hl.
  assert (Hne : _encoded enc <> [])
    by (intros E; rewrite E in Hl; discriminate).
  pose proof (last_row_nth_error _ _ Hl) as Hlast.
  apply (map_nth_error chunk_id) in Hlast.
  assert (Hlen : (0 < length (map chunk_id (_encoded enc)))%nat).
  { rewrite length_map. destruct (_encoded enc); [contradiction|cbn; lia]. }
  rewrite get_name_for_chunk_rows by assumption.
  change (-1) with (- (1)). rewrite np_index_negative by lia.
  destruct (np_index_within (map chunk_id (_encoded enc))
              (Z.of_nat (length (map chunk_id (_encoded enc))) - 1) ltac:(lia))
    as (a & Ha & ->).
  replace (Z.to_nat (Z.of_nat (length (map chunk_id (_encoded enc))) - 1))
    with (length (_encoded enc) - 1)%nat in Ha by (rewrite length_map; lia).
  rewrite Hlast in Ha. injection Ha as <-. reflexivity.
Qed.

Lemma ENCODING_MODULUS_shift : ENCODING_MODULUS = 2 ^ UUID_SHIFT_AMOUNT.
Proof. vm_compute. reflexivity. Qed.

(** [generate_chunk_id] returns an id within 64 bits, the upper half of a
    128-bit uuid.  It appends one row and leaves the rows before it alone;
    the new row is the last one and carries the returned id, so
    [get_name_for_chunk (-1)] is the name of that id, and [id_from_name]
    takes the name back to the id. *)
Theorem generate_chunk_id_names_new_chunk (uuid : Z) (w : world) :
  well_formed (self w) = true ->
  exists id,
    fst (generate_chunk_id uuid w) = ok id
    /\ 0 <= id < ENCODING_MODULUS
    /\ (0 <= uuid < ENCODING_MODULUS * ENCODING_MODULUS ->
        id = uuid / ENCODING_MODULUS)
    /\ (exists bound,
          _encoded (self (snd (generate_chunk_id uuid w)))
          = _encoded (self w) ++ [mk_row id bound])
    /\ get_name_for_chunk (self (snd (generate_chunk_id uuid w))) (-1)
       = ok (name_from_id id)
    /\ id_from_name (name_from_id id) = ok id.
Proof.
  intros Hwf.
  exists (ENCODING_DTYPE (Z.shiftr uuid UUID_SHIFT_AMOUNT)).
  pose proof (ENCODING_DTYPE_range (Z.shiftr uuid UUID_SHIFT_AMOUNT)) as Hid.
  rewrite generate_chunk_id_run by assumption. cbn [fst snd self _encoded].
  split; [reflexivity|]. split; [exact Hid|]. split; [|split; [|split]].
  - intros Hu. rewrite Z.shiftr_div_pow2 by (vm_compute; discriminate).
    rewrite <- ENCODING_MODULUS_shift. apply ENCODING_DTYPE_small.
    pose proof ENCODING_MODULUS_pos as Hm. split.
    + apply Z.div_pos; lia.
    + apply Z.div_lt_upper_bound; lia.
  - eexists. reflexivity.
  - apply (get_name_for_chunk_last _
             (mk_row (ENCODING_DTYPE (Z.shiftr uuid UUID_SHIFT_AMOUNT))
                     (initial_bound (_encoded (self w))))).
    cbn [_encoded]. apply last_row_app.
  - apply id_from_name_name_from_id. lia.
Qed.

(** ** What [register_samples] leaves alone *)

(** Accepted or refused, [register_samples] adds no row and changes no chunk
    id; all it may write is the bound of the last row. *)
Theorem register_samples_keeps_rows (n : Z) (w : world) :
  well_formed (self w) = true ->
  map chunk_id (_encoded (self (snd (register_samples n w))))
  = map chunk_id (_encoded (self w))
  /\ removelast (_encoded (self (snd (register_samples n w))))
     = removelast (_encoded (self w)).
Proof.
  intros Hwf.
  destruct (register_samples_cases n w Hwf)
    as [(e & w1 & -> & Hs & _)|(r & Hl & _ & ->)].
  - cbn [snd]. rewrite Hs. split; reflexivity.
  - cbn [snd self _encoded].
    destruct (last_row_split _ _ Hl) as [front ->].
    rewrite set_last_index_app, !map_app, !removelast_last. split; reflexivity.
Qed.

(** * The further properties at sample states *)

Lemma generate_chunk_id_keeps_lookups_witness :
  well_formed (self one_chunk) = true
  /\ non_decreasing (last_index_column (self one_chunk)) = true
  /\ _encoded (self one_chunk) <> []
  /\ get_chunk_id (self (snd (generate_chunk_id 0 one_chunk))) 5
     = get_chunk_id (self one_chunk) 5.
Proof.
  split; [reflexivity|]. split; [reflexivity|]. split; [discriminate|].
  apply (generate_chunk_id_keeps_lookups 0 one_chunk 5);
    [reflexivity|reflexivity|discriminate].
Defined.



Lemma run_calls_keeps_order_witness :
  run_calls [GenerateChunkId 0; RegisterSamples 10;
             GenerateChunkId 18446744073709551616; RegisterSamples 1]
    initial_world
  = (ok tt, mk_world (mk_encoder [mk_row 0 9; mk_row 1 10]) (mk_np Warn []))
  /\ non_decreasing
       (last_index_column (mk_encoder [mk_row 0 9; mk_row 1 10])) = true.
Proof.
  assert (Hrun : run_calls [GenerateChunkId 0; RegisterSamples 10;
                            GenerateChunkId 18446744073709551616;
                            RegisterSamples 1] initial_world
                 = (ok tt, mk_world (mk_encoder [mk_row 0 9; mk_row 1 10])
                                    (mk_np Warn [])))
    by (vm_compute; reflexivity).
  split; [exact Hrun|].
  apply (run_calls_keeps_order 0 10
           [GenerateChunkId 18446744073709551616; RegisterSamples 1]
           (mk_world (mk_encoder [mk_row 0 9; mk_row 1 10]) (mk_np Warn []))).
  - lia.
  - exact Hrun.
  - vm_compute. discriminate.
Defined.



Lemma lookup_monotone_witness :
  non_decreasing (last_index_column three_chunks) = true
  /\ exists (ki kj : nat) (id_i id_j : Z),
       Encoder_getitem three_chunks 1 = ok (id_i, Z.of_nat ki)
       /\ Encoder_getitem three_chunks 5 = ok (id_j, Z.of_nat kj)
       /\ (ki <= kj)%nat.
Proof.
  split; [reflexivity|].
  apply (lookup_monotone three_chunks 1 5); [reflexivity|lia|lia|cbn; lia].
Defined.

Lemma name_from_id_injective_witness :
  name_from_id 255 = name_from_id 255 /\ 255 = 255.
Proof.
  split; [reflexivity|].
  apply (name_from_id_injective 255 255); [lia|lia|reflexivity].
Defined.

Lemma get_name_for_chunk_spec_witness :
  get_name_for_chunk three_chunks 3 = raise IndexError
  <-> (3 < - Z.of_nat (length (_encoded three_chunks))
       \/ Z.of_nat (length (_encoded three_chunks)) <= 3).
Proof. apply (proj1 (get_name_for_chunk_spec three_chunks 3)). Defined.

Lemma id_from_name_normalises_witness :
  id_from_name "0F" = ok 15
  /\ canonical_name (name_from_id 15) = true
  /\ id_from_name (name_from_id 15) = ok 15.
Proof.
  split; [reflexivity|].
  apply (proj1 (id_from_name_normalises "0F") 15). reflexivity.
Defined.

Lemma register_samples_error_kinds_witness :
  well_formed (self one_chunk) = true
  /\ (fst (register_samples 0 one_chunk) = raise ChunkIdEncoderError
      <-> 0 <= 0 /\ (_encoded (self one_chunk) = []
                     \/ (0 = 0 /\ length (_encoded (self one_chunk)) = 1%nat))).
Proof.
  split; [reflexivity|].
  apply (proj2 (register_samples_error_kinds 0 one_chunk eq_refl)).
Defined.

Lemma register_samples_additive_witness :
  well_formed (self one_chunk) = true
  /\ _encoded (self one_chunk) <> []
  /\ snd (register_samples 10 (snd (register_samples 10 one_chunk)))
     = snd (register_samples (10 + 10) one_chunk).
Proof.
  split; [reflexivity|]. split; [discriminate|].
  apply (register_samples_additive 10 10 one_chunk);
    [reflexivity|discriminate|lia|lia|vm_compute; reflexivity].
Defined.

Lemma register_samples_wraps_silently_witness :
  well_formed (mk_encoder [mk_row 7 18446744073709551610]) = true
  /\ fst (register_samples 10
            (mk_world (mk_encoder [mk_row 7 18446744073709551610])
                      (mk_np Raise [])))
     <> raise FloatingPointError.
Proof.
  split; [reflexivity|].
  apply (register_samples_wraps_silently 10
           (mk_world (mk_encoder [mk_row 7 18446744073709551610])
                     (mk_np Raise []))).
  reflexivity.
Defined.

Lemma generate_chunk_id_names_new_chunk_witness :
  well_formed (self one_chunk) = true
  /\ exists id,
       fst (generate_chunk_id 18446744073709551616 one_chunk) = ok id
       /\ 0 <= id < ENCODING_MODULUS
       /\ (0 <= 18446744073709551616 < ENCODING_MODULUS * ENCODING_MODULUS ->
           id = 18446744073709551616 / ENCODING_MODULUS)
       /\ (exists bound,
             _encoded (self (snd (generate_chunk_id 18446744073709551616 one_chunk)))
             = _encoded (self one_chunk) ++ [mk_row id bound])
       /\ get_name_for_chunk
            (self (snd (generate_chunk_id 18446744073709551616 one_chunk))) (-1)
          = ok (name_from_id id)
       /\ id_from_name (name_from_id id) = ok id.
Proof.
  split; [reflexivity|].
  apply (generate_chunk_id_names_new_chunk 18446744073709551616 one_chunk).
  reflexivity.
Defined.

Lemma register_samples_keeps_rows_witness :
  well_formed (self two_chunks) = true
  /\ map chunk_id (_encoded (self (snd (register_samples 3 two_chunks))))
     = map chunk_id (_encoded (self two_chunks)).
Proof.
  split; [reflexivity|].
  apply (register_samples_keeps_rows 3 two_chunks). reflexivity.
Defined.
